(** * Cyphernote: the history engine, the list-aware line editor and the
    line-preserving scrambler of [src/App.tsx], embedded and verified.

    The component [App] keeps the React state [text], [undoStack] and
    [redoStack] (and the flag [isRevealed], which no handler below reads or
    writes).  Every handler reads the values of the current render and
    issues [setText] / [setUndoStack] / [setRedoStack]; the embedding turns
    each handler into a function from the state before the event to the
    state after it.  JavaScript strings are sequences of
    UTF-16 code units, JavaScript numbers are IEEE 754 binary64 values. *)

From Stdlib Require Import ZArith NArith PArith List Bool Lia.
From Stdlib Require Import Ascii.
From Stdlib Require String.
From Stdlib Require DecimalN DecimalPos.
From Stdlib Require Import Floats.SpecFloat.
Import ListNotations.

(** ** JavaScript strings *)

(** A string is the list of its UTF-16 code units; [length] is the list
    length, which is what [.length], [substring] and [selectionStart]
    count. *)
Definition code_unit := N.
Definition jsstring := list code_unit.

Module Chars.
Definition LF : code_unit := 10%N.            (* '\n' *)
Definition space : code_unit := 32%N.         (* ' ' *)
Definition lparen : code_unit := 40%N.        (* '(' *)
Definition rparen : code_unit := 41%N.        (* ')' *)
Definition asterisk : code_unit := 42%N.      (* '*' *)
Definition plus : code_unit := 43%N.          (* '+' *)
Definition hyphen : code_unit := 45%N.        (* '-' *)
Definition period : code_unit := 46%N.        (* '.' *)
Definition zero : code_unit := 48%N.          (* '0' *)
Definition one : code_unit := 49%N.           (* '1' *)
Definition nine : code_unit := 57%N.          (* '9' *)
Definition lbracket : code_unit := 91%N.      (* '[' *)
Definition rbracket : code_unit := 93%N.      (* ']' *)
Definition letter_e : code_unit := 101%N.     (* 'e' *)
Definition lbrace : code_unit := 123%N.       (* '{' *)
Definition rbrace : code_unit := 125%N.       (* '}' *)
Definition bullet : code_unit := 8226%N.      (* U+2022 *)
End Chars.

(** The class [\s] of a regular expression, which is also the set removed by
    [trim] and [trimEnd]: the WhiteSpace and LineTerminator code points of
    ECMAScript. *)
Definition isSpace (c : code_unit) : bool :=
  ((9 <=? c) && (c <=? 13)            (* TAB, LF, VT, FF, CR *)
   || (c =? 32) || (c =? 160)         (* SPACE, NO-BREAK SPACE *)
   || (c =? 5760)                     (* U+1680 *)
   || ((8192 <=? c) && (c <=? 8202))  (* U+2000 .. U+200A *)
   || (c =? 8232) || (c =? 8233)      (* U+2028, U+2029 *)
   || (c =? 8239) || (c =? 8287)      (* U+202F, U+205F *)
   || (c =? 12288) || (c =? 65279))%N (* U+3000, U+FEFF *).

(** The class [\d]. *)
Definition isDigit (c : code_unit) : bool :=
  ((Chars.zero <=? c) && (c <=? Chars.nine))%N.

(** The bullet glyphs of the list patterns: hyphen, asterisk, U+2022. *)
Definition isBullet (c : code_unit) : bool :=
  ((c =? Chars.hyphen) || (c =? Chars.asterisk) || (c =? Chars.bullet))%N.

(** [s.substring(a)] and [s.substring(a, b)] for non-negative integer
    arguments: both ends are clamped to the length and swapped when
    [a > b]. *)
Definition substringFrom (s : jsstring) (a : nat) : jsstring := skipn a s.

Definition substring (s : jsstring) (a b : nat) : jsstring :=
  let a' := Nat.min a (length s) in
  let b' := Nat.min b (length s) in
  let from := Nat.min a' b' in
  let to := Nat.max a' b' in
  firstn (to - from) (skipn from s).

(** [s.indexOf(c)] for a one-unit needle: index of the first occurrence,
    or -1. *)
Fixpoint indexOf (s : jsstring) (c : code_unit) : Z :=
  match s with
  | [] => (-1)%Z
  | x :: s' =>
      if (x =? c)%N then 0%Z
      else let i := indexOf s' c in
           if (i =? -1)%Z then (-1)%Z else (i + 1)%Z
  end.

(** [s.lastIndexOf(c)]: index of the last occurrence, or -1. *)
Fixpoint lastIndexOf (s : jsstring) (c : code_unit) : Z :=
  match s with
  | [] => (-1)%Z
  | x :: s' =>
      let i := lastIndexOf s' c in
      if (i =? -1)%Z
      then (if (x =? c)%N then 0%Z else (-1)%Z)
      else (i + 1)%Z
  end.

Fixpoint dropWhile (p : code_unit -> bool) (s : jsstring) : jsstring :=
  match s with
  | [] => []
  | x :: s' => if p x then dropWhile p s' else s
  end.

Fixpoint takeWhile (p : code_unit -> bool) (s : jsstring) : jsstring :=
  match s with
  | [] => []
  | x :: s' => if p x then x :: takeWhile p s' else []
  end.

Definition trimStart (s : jsstring) : jsstring := dropWhile isSpace s.
Definition trimEnd (s : jsstring) : jsstring := rev (dropWhile isSpace (rev s)).
Definition trim (s : jsstring) : jsstring := trimEnd (trimStart s).

(** [s.split(c)] for a one-unit separator: the pieces between the
    separators; the empty string gives one empty piece. *)
Fixpoint split (c : code_unit) (s : jsstring) : list jsstring :=
  match s with
  | [] => [[]]
  | x :: s' =>
      if (x =? c)%N then [] :: split c s'
      else match split c s' with
           | [] => [[x]]
           | l :: ls => (x :: l) :: ls
           end
  end.

Definition jsstring_eqb (a b : jsstring) : bool :=
  if list_eq_dec N.eq_dec a b then true else false.

(** ** The history engine *)

(** The three [useState] cells of the component. *)
Record AppState := mkState {
  text : jsstring;
  undoStack : list jsstring;
  redoStack : list jsstring
}.

(** [useState('')], [useState([])], [useState([])]. *)
Definition initialState : AppState := mkState [] [] [].

(** [handleTextChange]: [value] is [e.target.value]. *)
Definition handleTextChange (s : AppState) (value : jsstring) : AppState :=
  mkState value (text s :: undoStack s) [].

(** [handleUndo]. *)
Definition handleUndo (s : AppState) : AppState :=
  match undoStack s with
  | previousText :: newUndoStack =>
      mkState previousText newUndoStack (text s :: redoStack s)
  | [] => s
  end.

(** [handleRedo]. *)
Definition handleRedo (s : AppState) : AppState :=
  match redoStack s with
  | nextText :: newRedoStack =>
      mkState nextText (text s :: undoStack s) newRedoStack
  | [] => s
  end.

(** [handleClear]. *)
Definition handleClear (s : AppState) : AppState := mkState [] [] [].

(** ** JavaScript numbers *)

(** A Number is a binary64 value; the operations are the ones of the
    specification of IEEE 754 arithmetic in the standard library, at
    precision 53 and maximal exponent 1024 (round to nearest, ties to
    even). *)
Definition Number := spec_float.
Definition prec : Z := 53.
Definition emax : Z := 1024.

(** The Number of an integer literal or of an integer-valued expression. *)
Definition Number_of_Z (z : Z) : Number := binary_normalize prec emax z 0 false.

Definition Number_mul (x y : Number) : Number := SFmul prec emax x y.
Definition Number_add (x y : Number) : Number := SFadd prec emax x y.
Definition Number_lt (x y : Number) : bool := SFltb x y.
Definition Number_le (x y : Number) : bool := SFleb x y.

(** The largest integer below or equal to a finite value. *)
Definition floorZ (x : Number) : Z :=
  match x with
  | S754_finite s m e =>
      let v := cond_Zopp s (Zpos m) in
      if (0 <=? e)%Z then (v * 2 ^ e)%Z else (v / 2 ^ (- e))%Z
  | _ => 0%Z
  end.

(** [Math.floor]: zeros, infinities, NaN and the values without fractional
    bits are returned as they are. *)
Definition Math_floor (x : Number) : Number :=
  match x with
  | S754_finite s m e =>
      if (0 <=? e)%Z then x else binary_normalize prec emax (floorZ x) 0 s
  | _ => x
  end.

(** The integer part of a finite value, rounded towards zero. *)
Definition truncZ (x : Number) : Z :=
  match x with
  | S754_finite s m e =>
      cond_Zopp s (if (0 <=? e)%Z then Zpos m * 2 ^ e else Zpos m / 2 ^ (- e))%Z
  | _ => 0%Z
  end.

(** [ToUint16], and [String.fromCharCode] of one argument, whose result is
    a string of that single code unit. *)
Definition ToUint16 (x : Number) : N := Z.to_N (truncZ x mod 65536).
Definition String_fromCharCode (x : Number) : jsstring := [ToUint16 x].

(** The decimal digits of a natural number, as code units. *)
Fixpoint units_of_uint (d : Decimal.uint) : jsstring :=
  match d with
  | Decimal.Nil => []
  | Decimal.D0 d' => 48%N :: units_of_uint d'
  | Decimal.D1 d' => 49%N :: units_of_uint d'
  | Decimal.D2 d' => 50%N :: units_of_uint d'
  | Decimal.D3 d' => 51%N :: units_of_uint d'
  | Decimal.D4 d' => 52%N :: units_of_uint d'
  | Decimal.D5 d' => 53%N :: units_of_uint d'
  | Decimal.D6 d' => 54%N :: units_of_uint d'
  | Decimal.D7 d' => 55%N :: units_of_uint d'
  | Decimal.D8 d' => 56%N :: units_of_uint d'
  | Decimal.D9 d' => 57%N :: units_of_uint d'
  end.

Definition decimal (n : Z) : jsstring := units_of_uint (N.to_uint (Z.to_N n)).

(** The bound up to which every integer is a binary64 value: 2^53. *)
Definition two53 : Z := 9007199254740992.

(** An ASCII literal as a JavaScript string. *)
Definition lit (s : String.string) : jsstring :=
  map N_of_ascii (String.list_ascii_of_string s).

(** The words of [Number.prototype.toString()]. *)
Module NumberLit.
Import String.
Local Open Scope string_scope.
Definition NaN : jsstring := lit "NaN".
Definition Infinity : jsstring := lit "Infinity".
End NumberLit.

(** The digits of a positive binary64 value [m * 2^e] that is not an
    integer up to 2^53, as the language defines them: integers [s], [n] and
    [k] with [10^(k-1) <= s < 10^k] such that [s * 10^(n-k)] rounds to the
    value, [k] as small as possible, then [s * 10^(n-k)] as near to the
    value as possible, then [s] even.

    [decimalExponent] is the [n] of the value itself: [10^(n-1) <= m * 2^e
    < 10^n]. *)
Definition decimalExponent (m : positive) (e : Z) : Z :=
  let num := if (0 <=? e)%Z then (Z.pos m * 2 ^ e)%Z else Z.pos m in
  let den := if (0 <=? e)%Z then 1%Z else (2 ^ (- e))%Z in
  if (den <=? num)%Z then Z.of_nat (length (decimal (num / den)))
  else (1 - Z.of_nat (length (decimal ((den - 1) / num))))%Z.

(** The numeral of [k] digits that represents the value, if there is one.
    The value is [V * 2^E], and the numbers that round to it are those
    between [L * 2^E] and [H * 2^E], the ends included when the mantissa is
    [even].  Everything is scaled to integers: [up] is the weight
    [10^(n-k)] of the last digit, and the two numerals of [k] digits around
    the value are [s1] and [s1 + 1].  A numeral that reaches [10^k] is the
    digit 1 one decimal place higher. *)
Definition digitsCandidate (V L H E : Z) (even : bool) (n k : Z)
  : option (Z * Z) :=
  let j := (n - k)%Z in
  let up := (10 ^ Z.max j 0 * 2 ^ Z.max (- E) 0)%Z in
  let dn := (2 ^ Z.max E 0 * 10 ^ Z.max (- j) 0)%Z in
  let v := (V * dn)%Z in
  let lo := (L * dn)%Z in
  let hi := (H * dn)%Z in
  let s1 := (v / up)%Z in
  let s2 := (s1 + 1)%Z in
  let inside c :=
    if even then ((lo <=? c) && (c <=? hi))%Z else ((lo <? c) && (c <? hi))%Z in
  let pick s :=
    if (s =? 10 ^ k)%Z then ((10 ^ (k - 1))%Z, (n + 1)%Z) else (s, n) in
  match inside (s1 * up)%Z, inside (s2 * up)%Z with
  | true, true =>
      let d1 := (v - s1 * up)%Z in
      let d2 := (s2 * up - v)%Z in
      if (d1 <? d2)%Z then Some (pick s1)
      else if (d2 <? d1)%Z then Some (pick s2)
      else Some (pick (if Z.even s1 then s1 else s2))
  | true, false => Some (pick s1)
  | false, true => Some (pick s2)
  | false, false => None
  end.

(** The least [k] that has a numeral, searched upwards; 17 digits tell any
    two binary64 values apart, so that the search ends within its fuel. *)
Fixpoint searchDigits (fuel : nat) (V L H E : Z) (even : bool) (n k : Z)
  : Z * Z :=
  match fuel with
  | O => (0%Z, n)
  | S fuel' =>
      match digitsCandidate V L H E even n k with
      | Some r => r
      | None => searchDigits fuel' V L H E even n (k + 1)
      end
  end.

(** The pair [(s, n)] of a binary64 value with mantissa [m] (below 2^53, and
    at least 2^52 unless [e] is the least exponent -1074) and exponent [e].
    In quarters of a unit in the last place the value is [4 * m]; its
    neighbours are one unit away, but for the one below a power of two,
    which is half a unit away. *)
Definition shortestDigits (m : positive) (e : Z) : Z * Z :=
  let V := (4 * Z.pos m)%Z in
  let L := if ((Z.pos m =? 2 ^ 52) && (-1074 <? e))%Z
           then (V - 1)%Z else (V - 2)%Z in
  searchDigits 17 V L (V + 2)%Z (e - 2)%Z (Z.even (Z.pos m))
    (decimalExponent m e) 1%Z.

(** The string of the digits [s] with decimal exponent [n]: the digits
    followed by zeros when [k <= n <= 21], a decimal point inside the digits
    when [0 < n <= 21], zeros after [0.] when [-6 < n <= 0], and else the
    notation with an exponent. *)
Definition formatDigits (sn : Z * Z) : jsstring :=
  let (s, n) := sn in
  let ds := decimal s in
  let k := Z.of_nat (length ds) in
  if ((k <=? n) && (n <=? 21))%Z
  then ds ++ repeat Chars.zero (Z.to_nat (n - k))
  else if ((0 <? n) && (n <=? 21))%Z
  then firstn (Z.to_nat n) ds ++ [Chars.period] ++ skipn (Z.to_nat n) ds
  else if ((-6 <? n) && (n <=? 0))%Z
  then [Chars.zero; Chars.period] ++ repeat Chars.zero (Z.to_nat (- n)) ++ ds
  else
    let sign := if (0 <? n - 1)%Z then Chars.plus else Chars.hyphen in
    match ds with
    | [] => []
    | [d] => [d; Chars.letter_e; sign] ++ decimal (Z.abs (n - 1))
    | d :: rest =>
        [d; Chars.period] ++ rest ++ [Chars.letter_e; sign]
        ++ decimal (Z.abs (n - 1))
    end.

(** [Number.prototype.toString()], which is what the concatenation of a
    Number with a string applies to it.  An integer from 0 to 2^53 is its
    decimal numeral; every other finite value is the string of its shortest
    digits, so that 2^53 + 2 gives [9007199254740994], 2^60 gives
    [1152921504606847000] and 10^21 gives [1e+21]. *)
Definition Number_toString (x : Number) : jsstring :=
  match x with
  | S754_nan => NumberLit.NaN
  | S754_zero _ => [Chars.zero]
  | S754_infinity s => (if s then [Chars.hyphen] else []) ++ NumberLit.Infinity
  | S754_finite s m e =>
      (if s then [Chars.hyphen] else [])
      ++ (if (0 <=? e)%Z
          then (if (Zpos m * 2 ^ e <=? two53)%Z
                then decimal (Zpos m * 2 ^ e)
                else formatDigits (shortestDigits m e))
          else (if ((Zpos m mod 2 ^ (- e) =? 0)
                    && (Zpos m / 2 ^ (- e) <=? two53))%Z
                then decimal (Zpos m / 2 ^ (- e))
                else formatDigits (shortestDigits m e)))
  end.

(** [parseInt] on a string of decimal digits (the capture of [\d+]): the
    Number nearest to the numeral's value. *)
Definition digitValue (c : code_unit) : Z := Z.of_N (c - Chars.zero).

Definition digitsValue (ds : jsstring) : Z :=
  fold_left (fun acc c => (acc * 10 + digitValue c)%Z) ds 0%Z.

Definition parseInt (ds : jsstring) : Number := Number_of_Z (digitsValue ds).

(** ** The random generator *)

(** [Math.random()] is an oracle: the sequence of the values it returns, and
    the number of calls made so far.  A computation that draws random
    numbers takes the counter and returns the new one. *)
Definition RandomSource := nat -> Number.
Definition Rand (A : Type) : Type := nat -> A * nat.

Definition ret {A : Type} (a : A) : Rand A := fun k => (a, k).

Definition bind {A B : Type} (m : Rand A) (f : A -> Rand B) : Rand B :=
  fun k => let (a, k') := m k in f a k'.

Definition Math_random (rng : RandomSource) : Rand Number :=
  fun k => (rng k, S k).

(** [Array.prototype.map] with a callback that draws random numbers: the
    elements are visited in index order. *)
Fixpoint mapM {A B : Type} (f : A -> Rand B) (l : list A) : Rand (list B) :=
  match l with
  | [] => ret []
  | a :: l' => bind (f a) (fun b => bind (mapM f l') (fun bs => ret (b :: bs)))
  end.

(** What the language promises of a value of [Math.random()]: a binary64
    value, not below 0 and below 1. *)
Definition unit_interval (r : Number) : bool :=
  valid_binary prec emax r
  && Number_le (S754_zero false) r
  && Number_lt r (Number_of_Z 1).

(** ** The scrambler *)

(** The character class tested in [scrambleText]: [\s], hyphen, asterisk,
    U+2022, [\d], period, parentheses, square brackets and braces. *)
Definition isStructural (c : code_unit) : bool :=
  isSpace c
  || (c =? Chars.hyphen)%N || (c =? Chars.asterisk)%N || (c =? Chars.bullet)%N
  || isDigit c || (c =? Chars.period)%N
  || (c =? Chars.lparen)%N || (c =? Chars.rparen)%N
  || (c =? Chars.lbracket)%N || (c =? Chars.rbracket)%N
  || (c =? Chars.lbrace)%N || (c =? Chars.rbrace)%N.

(** [String.fromCharCode(Math.floor(r * (126 - 33 + 1)) + 33)] for a value
    [r] of [Math.random()]. *)
Definition randomChar (r : Number) : jsstring :=
  String_fromCharCode
    (Number_add (Math_floor (Number_mul r (Number_of_Z (126 - 33 + 1))))
                (Number_of_Z 33)).

(** The callback of [map] in [scrambleText]; [char] is a string of one code
    unit. *)
Definition scrambleChar (rng : RandomSource) (char : code_unit) : Rand jsstring :=
  if isStructural char then ret [char]
  else bind (Math_random rng) (fun r => ret (randomChar r)).

(** [scrambleText]: [split('')] gives the code units one by one and
    [join('')] concatenates the pieces. *)
Definition scrambleText (rng : RandomSource) (input : jsstring) : Rand jsstring :=
  bind (mapM (scrambleChar rng) input) (fun pieces => ret (concat pieces)).

(** [renderScrambledText]: the scrambled lines, in order; the fragments put
    a line break between two of them. *)
Definition renderScrambledText (rng : RandomSource) (s : AppState)
  : Rand (list jsstring) :=
  mapM (scrambleText rng) (split Chars.LF (text s)).

(** ** The list-aware line editor *)

(** The literals of the handlers. *)
Module Lit.
Import String.
Local Open Scope string_scope.
Definition Enter : jsstring := lit "Enter".
Definition b : jsstring := lit "b".
Definition n : jsstring := lit "n".
Definition firstItem : jsstring := lit "1. ".
End Lit.

(** The bullet token ['• '] of [insertBulletPoint]. *)
Definition bulletToken : jsstring := [Chars.bullet; Chars.space].

(** [toLowerCase] on the letters A to Z.  The handler only compares the
    result with ['b'] and ['n'], and no code unit outside A-Z is lowered to
    one of these two. *)
Definition toLowerCase (s : jsstring) : jsstring :=
  map (fun c => if ((65 <=? c) && (c <=? 90))%N then (c + 32)%N else c) s.

(** What the handler reads of a key event on the text area. *)
Record KeyboardEvent := mkKey {
  key : jsstring;
  altKey : bool;
  shiftKey : bool;
  selectionStart : nat      (* [e.currentTarget.selectionStart] *)
}.

(** What an event leaves behind: the state of the next render, the caret
    that the [setTimeout] callback assigns to [selectionStart] and
    [selectionEnd] (if one was scheduled), and whether [preventDefault] was
    called. *)
Record Outcome := mkOutcome {
  state : AppState;
  caret : option nat;
  defaultPrevented : bool
}.

(** The start of the line of the caret, as [getCurrentLine], [removeBullet]
    and [removeNumberedItem] each compute it. *)
Definition lineStartIndexOf (txt : jsstring) (cursorPosition : nat) : nat :=
  let textBeforeCursor := substring txt 0 cursorPosition in
  let lastNewlineIndex := lastIndexOf textBeforeCursor Chars.LF in
  if (lastNewlineIndex =? -1)%Z then 0 else Z.to_nat (lastNewlineIndex + 1).

(** [getCurrentLine]. *)
Definition getCurrentLine (txt : jsstring) (cursorPosition : nat) : jsstring :=
  let lineStartIndex := lineStartIndexOf txt cursorPosition in
  let textAfterCursor := substringFrom txt cursorPosition in
  let nextNewlineIndex := indexOf textAfterCursor Chars.LF in
  let lineEndIndex :=
    if (nextNewlineIndex =? -1)%Z then length txt
    else cursorPosition + Z.to_nat nextNewlineIndex in
  substring txt lineStartIndex lineEndIndex.

(** The bullet pattern of [handleKeyDown], anchored at the start of the
    line: a group of any number of [\s], a group of one unit among hyphen,
    asterisk and U+2022, a group of one or more [\s]; the result is the three
    groups.  The classes of consecutive items are disjoint, so the greedy
    match is the only one. *)
Definition matchBullet (line : jsstring)
  : option (jsstring * jsstring * jsstring) :=
  let indent := takeWhile isSpace line in
  match dropWhile isSpace line with
  | b :: rest =>
      if isBullet b then
        match takeWhile isSpace rest with
        | [] => None
        | space => Some (indent, [b], space)
        end
      else None
  | [] => None
  end.

(** The numbered pattern of [handleKeyDown], anchored at the start of the
    line: a group of any number of [\s], a group of one or more [\d], a
    group of a period and one or more [\s]; the result is the three
    groups. *)
Definition matchNumber (line : jsstring)
  : option (jsstring * jsstring * jsstring) :=
  let indent := takeWhile isSpace line in
  let rest := dropWhile isSpace line in
  match takeWhile isDigit rest with
  | [] => None
  | number =>
      match dropWhile isDigit rest with
      | dot :: rest' =>
          if (dot =? Chars.period)%N then
            match takeWhile isSpace rest' with
            | [] => None
            | space => Some (indent, number, dot :: space)
            end
          else None
      | [] => None
      end
  end.

(** [insertBulletPoint]; [textarea] is [textareaRef.current], reduced to its
    [selectionStart], or [None] for a null reference. *)
Definition insertBulletPoint (textarea : option nat) (s : AppState)
  : AppState * option nat :=
  match textarea with
  | None => (s, None)
  | Some cursorPosition =>
      let newText :=
        substring (text s) 0 cursorPosition ++ bulletToken
        ++ substringFrom (text s) cursorPosition in
      (mkState newText (text s :: undoStack s) (redoStack s),
       Some (cursorPosition + 2))
  end.

(** [insertNumberedItem]. *)
Definition insertNumberedItem (textarea : option nat) (s : AppState)
  : AppState * option nat :=
  match textarea with
  | None => (s, None)
  | Some cursorPosition =>
      let newText :=
        substring (text s) 0 cursorPosition ++ Lit.firstItem
        ++ substringFrom (text s) cursorPosition in
      (mkState newText (text s :: undoStack s) (redoStack s),
       Some (cursorPosition + 3))
  end.

(** [continueBulletList]. *)
Definition continueBulletList (s : AppState) (cursorPosition : nat)
  (indent bullet space : jsstring) : AppState * option nat :=
  let newText :=
    substring (text s) 0 cursorPosition
    ++ [Chars.LF] ++ indent ++ bullet ++ space
    ++ substringFrom (text s) cursorPosition in
  let newCursorPosition :=
    cursorPosition + 1 + length indent + length bullet + length space in
  (mkState newText (text s :: undoStack s) (redoStack s),
   Some newCursorPosition).

(** [continueNumberedList]; the concatenations turn [nextNumber] into its
    string, whose length [nextNumber.toString().length] is. *)
Definition continueNumberedList (s : AppState) (cursorPosition : nat)
  (indent : jsstring) (number : Number) (suffix : jsstring)
  : AppState * option nat :=
  let nextNumber := Number_add number (Number_of_Z 1) in
  let newText :=
    substring (text s) 0 cursorPosition
    ++ [Chars.LF] ++ indent ++ Number_toString nextNumber ++ suffix
    ++ substringFrom (text s) cursorPosition in
  let newCursorPosition :=
    cursorPosition + 1 + length indent + length (Number_toString nextNumber)
    + length suffix in
  (mkState newText (text s :: undoStack s) (redoStack s),
   Some newCursorPosition).

(** [removeBullet]. *)
Definition removeBullet (s : AppState) (cursorPosition : nat)
  : AppState * option nat :=
  let lineStartIndex := lineStartIndexOf (text s) cursorPosition in
  let newText :=
    substring (text s) 0 lineStartIndex ++ substringFrom (text s) cursorPosition in
  (mkState newText (text s :: undoStack s) (redoStack s), Some lineStartIndex).

(** [removeNumberedItem]. *)
Definition removeNumberedItem (s : AppState) (cursorPosition : nat)
  : AppState * option nat :=
  let lineStartIndex := lineStartIndexOf (text s) cursorPosition in
  let newText :=
    substring (text s) 0 lineStartIndex ++ substringFrom (text s) cursorPosition in
  (mkState newText (text s :: undoStack s) (redoStack s), Some lineStartIndex).

(** An event that the handler lets through untouched. *)
Definition ignored (s : AppState) : Outcome := mkOutcome s None false.

(** A handled event: [preventDefault] and the effect of the helper. *)
Definition handled (r : AppState * option nat) : Outcome :=
  mkOutcome (fst r) (snd r) true.

(** Whether [match] returned an array rather than [null]. *)
Definition matched {A : Type} (m : option A) : bool :=
  match m with
  | Some _ => true
  | None => false
  end.

(** [handleKeyDown].  The handler is attached to the text area that
    [textareaRef] refers to, so the reference is not null while it runs and
    its [selectionStart] is the one of the event.  Each list pattern is
    matched twice, once as a test and once for its groups; the second match
    cannot fail, and its [null] branch only returns. *)
Definition handleKeyDown (s : AppState) (e : KeyboardEvent) : Outcome :=
  if altKey e && jsstring_eqb (toLowerCase (key e)) Lit.b then
    handled (insertBulletPoint (Some (selectionStart e)) s)
  else if altKey e && jsstring_eqb (toLowerCase (key e)) Lit.n then
    handled (insertNumberedItem (Some (selectionStart e)) s)
  else if jsstring_eqb (key e) Lit.Enter && negb (shiftKey e) then
    let cursorPosition := selectionStart e in
    let currentText := text s in
    let currentLine := getCurrentLine currentText cursorPosition in
    if matched (matchBullet currentLine) then
      match matchBullet currentLine with
      | Some (indent, bullet, space) =>
          if jsstring_eqb (trim currentLine) (bullet ++ trimEnd space)
          then handled (removeBullet s cursorPosition)
          else handled (continueBulletList s cursorPosition indent bullet space)
      | None => handled (s, None)
      end
    else if matched (matchNumber currentLine) then
      match matchNumber currentLine with
      | Some (indent, number, suffix) =>
          if jsstring_eqb (trim currentLine) (number ++ trimEnd suffix)
          then handled (removeNumberedItem s cursorPosition)
          else handled (continueNumberedList s cursorPosition indent
                          (parseInt number) suffix)
      | None => handled (s, None)
      end
    else ignored s
  else ignored s.

(** ** Sequences of history operations *)

(** [recordAndSet b1; ...; recordAndSet bn], oldest first. *)
Definition recordAll (bs : list jsstring) (s : AppState) : AppState :=
  fold_left handleTextChange bs s.

(** [n] calls of [undo()]. *)
Definition undoTimes (n : nat) (s : AppState) : AppState :=
  Nat.iter n handleUndo s.

(** The timeline of a state: the snapshots that can be undone to, oldest
    first, the buffer, and the snapshots that can be redone to. *)
Definition timeline (s : AppState) : list jsstring :=
  rev (undoStack s) ++ [text s] ++ redoStack s.

(** ** Vocabulary of the statements *)

(** A buffer is cut around the caret as [pre ++ mid ++ rest ++ post]: [pre]
    is empty or ends with a line feed, [mid ++ rest] is the line of the
    caret, with the caret between [mid] and [rest], and [post] is empty or
    starts with the line feed that ends the line. *)
Definition endsLine (pre : jsstring) : bool :=
  match rev pre with
  | [] => true
  | c :: _ => (c =? Chars.LF)%N
  end.

Definition startsLine (post : jsstring) : bool :=
  match post with
  | [] => true
  | c :: _ => (c =? Chars.LF)%N
  end.

Definition noLF (l : jsstring) : bool :=
  forallb (fun c => negb (c =? Chars.LF)%N) l.

Definition allSpace (l : jsstring) : bool := forallb isSpace l.
Definition allDigits (l : jsstring) : bool := forallb isDigit l.
Definition nonEmpty (l : jsstring) : bool := negb (Nat.eqb (length l) 0).

(** [r] is empty or starts with a unit outside the class [p]: a greedy run
    of [p] cannot go into [r]. *)
Definition stopsAt (p : code_unit -> bool) (r : jsstring) : bool :=
  match r with
  | [] => true
  | c :: _ => negb (p c)
  end.

(** The buffer [pre ++ mid ++ rest ++ post] is cut at the line of the
    caret. *)
Definition caretLine (pre mid rest post : jsstring) : Prop :=
  endsLine pre = true /\ noLF (mid ++ rest) = true /\ startsLine post = true.

(** A line that the bullet pattern matches: indentation, a bullet glyph,
    spacing, and the content of the item, which is empty or starts with a
    character that is not white space. *)
Definition bulletLine (line indent : jsstring) (glyph : code_unit)
  (spacing content : jsstring) : Prop :=
  line = indent ++ [glyph] ++ spacing ++ content /\
  allSpace indent = true /\ isBullet glyph = true /\
  nonEmpty spacing = true /\ allSpace spacing = true /\
  stopsAt isSpace content = true.

(** A line that the numbered pattern matches: indentation, digits, a
    period, spacing, and the content of the item. *)
Definition numberedLine (line indent digits spacing content : jsstring) : Prop :=
  line = indent ++ digits ++ [Chars.period] ++ spacing ++ content /\
  allSpace indent = true /\
  nonEmpty digits = true /\ allDigits digits = true /\
  nonEmpty spacing = true /\ allSpace spacing = true /\
  stopsAt isSpace content = true.

(** The outcome of Enter on an empty item of the buffer
    [pre ++ mid ++ rest ++ post] with undo stack [us]: the line is cut from
    its start to the caret, nothing is inserted, the caret goes to the start
    of the line, and the old buffer is the one snapshot pushed, which
    [undo()] brings back. *)
Definition markerRemoved (pre mid rest post : jsstring) (us : list jsstring)
  (o : Outcome) : Prop :=
  text (state o) = pre ++ rest ++ post /\
  caret o = Some (length pre) /\
  defaultPrevented o = true /\
  undoStack (state o) = (pre ++ mid ++ rest ++ post) :: us /\
  text (handleUndo (state o)) = pre ++ mid ++ rest ++ post.

(** The outcome of Enter on a non-empty item: [inserted] is put at the
    caret and the caret goes right after it. *)
Definition continuedWith (pre mid rest post inserted : jsstring)
  (o : Outcome) : Prop :=
  text (state o) = pre ++ mid ++ inserted ++ rest ++ post /\
  caret o = Some (length (pre ++ mid ++ inserted)) /\
  defaultPrevented o = true.

(** What the scrambler promises of a line and its scrambled form: the same
    length, every structural character kept at its position, every other
    character replaced by a code unit from 33 to 126. *)
Definition scrambledLine (line out : jsstring) : Prop :=
  length out = length line /\
  forall (i : nat) (c : code_unit),
    nth_error line i = Some c ->
    if isStructural c then nth_error out i = Some c
    else exists d : code_unit, nth_error out i = Some d /\ (33 <= d <= 126)%N.

(** Pressing Enter, without Shift, with the caret at [cursorPosition]; the
    Alt modifier is free. *)
Definition pressEnter (alt : bool) (cursorPosition : nat) : KeyboardEvent :=
  mkKey Lit.Enter alt false cursorPosition.

(** ** Sample buffers *)

Module Sample.
Import String.
Local Open Scope string_scope.
Definition a : jsstring := lit "a".
Definition ab : jsstring := lit "ab".
Definition emptyBullet : jsstring := lit "- ".
Definition bulletItem : jsstring := lit "- item one".
Definition secondItem : jsstring := lit "2. second item".
Definition thirdMarker : jsstring := lit "2. second item
3. ".
Definition goNow : jsstring := lit "- go now".
Definition itemOne : jsstring := lit "item one".
Definition two : jsstring := lit "2".
Definition secondContent : jsstring := lit "second item".
Definition hugeDigits : jsstring := lit "9007199254740992".
Definition hugeItem : jsstring := lit "9007199254740992. x".
Definition hugeIncremented : jsstring := lit "9007199254740992. x
9007199254740993. ".
Definition hugeRepeated : jsstring := lit "9007199254740992. x
9007199254740992. ".
Definition x : jsstring := lit "x".
Definition pastItem : jsstring := lit "9007199254740994. x".
Definition pastContinued : jsstring := lit "9007199254740994. x
9007199254740996. ".
Definition two60Item : jsstring := lit "1152921504606846976. x".
Definition two60Continued : jsstring := lit "1152921504606846976. x
1152921504606847000. ".
Definition sextillionItem : jsstring := lit "1000000000000000000000. x".
Definition sextillionContinued : jsstring := lit "1000000000000000000000. x
1e+21. ".
End Sample.

(** Numbers and the strings that [toString] gives for them. *)
Module NumberSample.
Import String.
Local Open Scope string_scope.
Definition samples : list (Number * jsstring) :=
  [ (S754_finite false 6755399441055744 (-52), lit "1.5");
    (S754_finite false 7205759403792794 (-56), lit "0.1");
    (S754_finite false 5404319552844596 (-54), lit "0.30000000000000004");
    (S754_finite false 8687443681197687 (-46), lit "123.456");
    (S754_finite false 4722366482869645 (-72), lit "0.000001");
    (S754_finite false 7555786372591432 (-76), lit "1e-7");
    (S754_finite false 1 (-1074), lit "5e-324");
    (S754_finite false 4503599627370497 1, lit "9007199254740994");
    (S754_finite false 6103515625000000 14, lit "100000000000000000000");
    (S754_finite false 7629394531250000 17, lit "1e+21");
    (S754_finite false 6724873095247260 944, lit "1e+300");
    (S754_finite false 9007199254740991 971, lit "1.7976931348623157e+308");
    (S754_finite true 7036874417766400 (-48), lit "-25");
    (S754_finite true 6755399441055744 (-52), lit "-1.5");
    (S754_zero true, lit "0");
    (S754_infinity false, lit "Infinity");
    (S754_infinity true, lit "-Infinity");
    (S754_nan, lit "NaN") ].
Definition safeIntegers : list Z :=
  [1; 7; 10; 25; 100; 1024; 123456789; 1000000000000000;
   9007199254740991; 9007199254740992]%Z.
End NumberSample.

(** A generator that always returns 0.5, and one that always returns the
    largest value below 1. *)
Definition alwaysHalf : RandomSource :=
  fun _ => S754_finite false 4503599627370496 (-53).
Definition alwaysLargest : RandomSource :=
  fun _ => S754_finite false 9007199254740991 (-53).

(** ** Further operations and vocabulary *)

(** [n] calls of [redo()]. *)
Definition redoTimes (n : nat) (s : AppState) : AppState :=
  Nat.iter n handleRedo s.

(** The lines of a buffer put together again, with a line feed between two
    of them. *)
Fixpoint joinLines (ls : list jsstring) : jsstring :=
  match ls with
  | [] => []
  | [l] => l
  | l :: ls' => l ++ Chars.LF :: joinLines ls'
  end.

(** A content character: one outside the class that [scrambleText] keeps. *)
Definition isContent (c : code_unit) : bool := negb (isStructural c).

(** The first version of [scrambleText] (the second component of
    [src/App.tsx] and [src/unnamed/part_000]): the callback of [map] ignores
    the character and always draws. *)
Definition scrambleTextV1 (rng : RandomSource) (input : jsstring) : Rand jsstring :=
  bind (mapM (fun _ : code_unit =>
                bind (Math_random rng) (fun r => ret (randomChar r))) input)
       (fun pieces => ret (concat pieces)).

(** A key pressed with Alt held. *)
Definition pressAlt (k : jsstring) (shift : bool) (cursorPosition : nat)
  : KeyboardEvent :=
  mkKey k true shift cursorPosition.

(** Every unit of [r] outside the class [p]. *)
Definition noneOf (p : code_unit -> bool) (r : jsstring) : bool :=
  forallb (fun c => negb (p c)) r.

(** The class of the period alone. *)
Definition isPeriod (c : code_unit) : bool := (c =? Chars.period)%N.

(** A line that is no list item: after its indentation comes
    - nothing, or a character that is neither white space, nor a bullet
      glyph, nor a digit; or
    - a bullet glyph that no white space follows; or
    - digits that no period follows; or
    - digits and a period that no white space follows. *)
Definition plainLine (line indent : jsstring) : Prop :=
  allSpace indent = true /\
  ((exists content,
       line = indent ++ content /\ stopsAt isSpace content = true /\
       stopsAt isBullet content = true /\ stopsAt isDigit content = true)
   \/
   (exists glyph content,
       line = indent ++ [glyph] ++ content /\ isBullet glyph = true /\
       stopsAt isSpace content = true)
   \/
   (exists digits content,
       line = indent ++ digits ++ content /\
       nonEmpty digits = true /\ allDigits digits = true /\
       stopsAt isDigit content = true /\ stopsAt isPeriod content = true)
   \/
   (exists digits content,
       line = indent ++ digits ++ [Chars.period] ++ content /\
       nonEmpty digits = true /\ allDigits digits = true /\
       stopsAt isSpace content = true)).

(** More sample buffers. *)
Module Sample2.
Import String.
Local Open Scope string_scope.
Definition upperB : jsstring := lit "B".
Definition upperN : jsstring := lit "N".
Definition hello : jsstring := lit "hello".
Definition helloWorld : jsstring := lit "hello
world".
Definition world : jsstring := lit "world".
Definition dashItem : jsstring := lit "-item".
Definition twelveApples : jsstring := lit "12 apples".
Definition twelve : jsstring := lit "12".
Definition apples : jsstring := lit " apples".
Definition pi : jsstring := lit "3.14".
Definition three : jsstring := lit "3".
Definition fourteen : jsstring := lit "14".
Definition item : jsstring := lit "item".
Definition structure : jsstring := lit "1. (2) [3] {4} - * 5.6".
Definition seven : jsstring := lit "7".
Definition sevenItem : jsstring := lit "7. seven".
Definition sevenContent : jsstring := lit "seven".
End Sample2.

(** * The history engine: properties *)

Section History.

Variable s : AppState.

Lemma handleUndo_cons (t u : jsstring) (us rs : list jsstring) :
  handleUndo (mkState t (u :: us) rs) = mkState u us (t :: rs).
Proof. reflexivity. Qed.

Lemma handleRedo_cons (t r : jsstring) (us rs : list jsstring) :
  handleRedo (mkState t us (r :: rs)) = mkState r (t :: us) rs.
Proof. reflexivity. Qed.

Lemma state_eta : mkState (text s) (undoStack s) (redoStack s) = s.
Proof. destruct s; reflexivity. Qed.

(** C2. When the undo stack is not empty, [undo()] followed at once by
    [redo()] gives back the very state before the pair: same buffer, same
    undo stack, same redo stack. *)
Theorem undo_then_redo_restores :
  0 < length (undoStack s) -> handleRedo (handleUndo s) = s.
Proof.
  destruct s as [t [|u us] rs]; simpl; intros H.
  - inversion H.
  - reflexivity.
Qed.

(** C8. [undo()] on an empty undo stack and [redo()] on an empty redo stack
    change nothing: buffer and both stacks stay as they are, and the
    handlers, being total functions, raise nothing. *)
Theorem undo_redo_on_empty_are_noops :
  (undoStack s = [] -> handleUndo s = s) /\
  (redoStack s = [] -> handleRedo s = s).
Proof.
  split; intros H.
  - unfold handleUndo; rewrite H; reflexivity.
  - unfold handleRedo; rewrite H; reflexivity.
Qed.

(** C9. [undo()] and [redo()] keep the timeline
    [reverse undoStack ++ [text] ++ redoStack] as it is: they move the
    position of the buffer in it and add, drop or alter no snapshot. *)
Theorem undo_redo_preserve_timeline :
  timeline (handleUndo s) = timeline s /\ timeline (handleRedo s) = timeline s.
Proof.
  unfold timeline; destruct s as [t us rs]; split.
  - destruct us as [|u us]; simpl; [reflexivity|].
    rewrite <- !app_assoc; reflexivity.
  - destruct rs as [|r rs]; simpl; [reflexivity|].
    rewrite <- !app_assoc; reflexivity.
Qed.

(** C4. [clear()] leaves an empty buffer and two empty stacks whatever the
    state was, pushing no snapshot; hence any number of [undo()] calls after
    it stays in that empty state and brings back nothing of the text before
    the clear. *)
Theorem clear_resets_and_is_not_undoable :
  handleClear s = mkState [] [] [] /\
  forall n : nat, undoTimes n (handleClear s) = mkState [] [] []. 
Proof.
  split; [reflexivity|].
  induction n as [|n IH]; [reflexivity|].
  unfold undoTimes in *; simpl; rewrite IH; reflexivity.
Qed.

End History.

Lemma undo_then_redo_restores_witness :
  0 < length (undoStack (mkState Sample.ab [Sample.a; []] [])) /\
  handleRedo (handleUndo (mkState Sample.ab [Sample.a; []] []))
  = mkState Sample.ab [Sample.a; []] [].
Proof.
  split; [simpl; lia|].
  apply undo_then_redo_restores; simpl; lia.
Defined.

Lemma undo_redo_on_empty_are_noops_witness :
  handleUndo (mkState Sample.a [] [Sample.ab]) = mkState Sample.a [] [Sample.ab] /\
  handleRedo (mkState Sample.ab [Sample.a] []) = mkState Sample.ab [Sample.a] [].
Proof.
  split.
  - apply (undo_redo_on_empty_are_noops (mkState Sample.a [] [Sample.ab]));
      reflexivity.
  - apply (undo_redo_on_empty_are_noops (mkState Sample.ab [Sample.a] []));
      reflexivity.
Defined.

(** *** Recording then undoing *)

Lemma undoTimes_succ (n : nat) (s : AppState) :
  undoTimes (S n) s = undoTimes n (handleUndo s).
Proof. unfold undoTimes; apply Nat.iter_succ_r. Qed.

Lemma recordAll_snoc (bs : list jsstring) (b : jsstring) (s : AppState) :
  recordAll (bs ++ [b]) s = handleTextChange (recordAll bs s) b.
Proof. unfold recordAll; rewrite fold_left_app; reflexivity. Qed.

(** Undoing does not look at the redo stack: what lies on it stays below
    what the undos push. *)
Lemma undoTimes_redo_frame (n : nat) :
  forall (t : jsstring) (us rs : list jsstring),
    undoTimes n (mkState t us rs)
    = mkState (text (undoTimes n (mkState t us [])))
              (undoStack (undoTimes n (mkState t us [])))
              (redoStack (undoTimes n (mkState t us [])) ++ rs).
Proof.
  induction n as [|n IH]; intros t us rs; [reflexivity|].
  rewrite !undoTimes_succ.
  destruct us as [|u us].
  - change (handleUndo (mkState t [] rs)) with (mkState t [] rs).
    change (handleUndo (mkState t [] [])) with (mkState t [] []).
    apply IH.
  - rewrite !handleUndo_cons, (IH u us (t :: rs)), (IH u us [t]).
    cbn [text undoStack redoStack].
    rewrite <- app_assoc; reflexivity.
Qed.

Lemma recordAll_redo_empty (bs : list jsstring) :
  redoStack (recordAll bs initialState) = [].
Proof.
  destruct bs as [|b bs] using rev_ind; [reflexivity|].
  rewrite recordAll_snoc; reflexivity.
Qed.

(** C3, as the code has it.  After [recordAndSet(b1) ... recordAndSet(bn)]
    from the empty state, [n] calls of [undo()] leave an empty buffer, an
    empty undo stack, and the redo stack [[b1; ...; bn]]: its top, which the
    next [redo()] takes, is [b1], the snapshot undone last. *)
Theorem record_then_undo_all (bs : list jsstring) :
  undoTimes (length bs) (recordAll bs initialState) = mkState [] [] bs.
Proof.
  induction bs as [|b bs IH] using rev_ind; [reflexivity|].
  rewrite recordAll_snoc, length_app, Nat.add_comm; simpl length; simpl Nat.add.
  rewrite undoTimes_succ.
  pose proof (recordAll_redo_empty bs) as Hr.
  destruct (recordAll bs initialState) as [t us rs] eqn:E; simpl in Hr; subst rs.
  unfold handleTextChange; cbn [text undoStack redoStack].
  rewrite handleUndo_cons, undoTimes_redo_frame, IH; reflexivity.
Qed.

(** C3, as stated, fails for two recorded buffers: after recording ["a"]
    and then ["ab"] and undoing twice, the redo stack is [["a"; "ab"]], not
    [["ab"; "a"]]. *)
Lemma record_then_undo_all_order_counterexample :
  redoStack (undoTimes 2 (recordAll [Sample.a; Sample.ab] initialState))
  = [Sample.a; Sample.ab]
  /\ redoStack (undoTimes 2 (recordAll [Sample.a; Sample.ab] initialState))
     <> [Sample.ab; Sample.a].
Proof. split; [reflexivity|]. vm_compute; discriminate. Qed.

(** C1, at a state reached by typing ["a"] and undoing it.  The text-change
    handler empties the redo stack; the bullet insertion pushes the old
    buffer and sets the new one but leaves the undone ["a"] on the redo
    stack. *)
Theorem list_insertion_keeps_redo_stack :
  handleUndo (handleTextChange initialState Sample.a)
  = mkState [] [] [Sample.a]
  /\ fst (insertBulletPoint (Some 0) (mkState [] [] [Sample.a]))
     = mkState bulletToken [[]] [Sample.a]
  /\ handleTextChange (mkState [] [] [Sample.a]) bulletToken
     = mkState bulletToken [[]] [].
Proof. repeat split. Qed.

(** * The key handler: properties *)

(** C10. Enter with Shift held is let through: whatever the buffer and the
    caret, also on a bullet or numbered line, the handler replaces nothing,
    leaves buffer, undo stack and redo stack as they are, schedules no caret
    and does not prevent the default action. *)
Theorem shift_enter_is_ignored (s : AppState) (e : KeyboardEvent) :
  key e = Lit.Enter -> shiftKey e = true ->
  handleKeyDown s e = ignored s.
Proof.
  intros Hkey Hshift; unfold handleKeyDown.
  rewrite Hkey, Hshift.
  replace (jsstring_eqb (toLowerCase Lit.Enter) Lit.b) with false
    by (vm_compute; reflexivity).
  replace (jsstring_eqb (toLowerCase Lit.Enter) Lit.n) with false
    by (vm_compute; reflexivity).
  rewrite !andb_false_r; reflexivity.
Qed.

Lemma shift_enter_is_ignored_witness :
  handleKeyDown (mkState Sample.bulletItem [] [Sample.a])
                (mkKey Lit.Enter false true 10)
  = ignored (mkState Sample.bulletItem [] [Sample.a]).
Proof. apply shift_enter_is_ignored; reflexivity. Defined.

(** ** Strings: auxiliary facts *)

Lemma jsstring_eqb_eq (a b : jsstring) : jsstring_eqb a b = true <-> a = b.
Proof.
  unfold jsstring_eqb; destruct (list_eq_dec N.eq_dec a b); split;
    congruence.
Qed.

Lemma jsstring_eqb_refl (a : jsstring) : jsstring_eqb a a = true.
Proof. apply jsstring_eqb_eq; reflexivity. Qed.

Lemma jsstring_eqb_neq (a b : jsstring) : a <> b -> jsstring_eqb a b = false.
Proof.
  intros H; destruct (jsstring_eqb a b) eqn:E; [|reflexivity].
  apply jsstring_eqb_eq in E; contradiction.
Qed.

Lemma substring_prefix (s : jsstring) (n : nat) : substring s 0 n = firstn n s.
Proof.
  unfold substring; simpl.
  rewrite Nat.sub_0_r.
  destruct (Nat.le_ge_cases n (length s)) as [H|H].
  - rewrite Nat.min_l by assumption; reflexivity.
  - rewrite Nat.min_r by assumption.
    rewrite !firstn_all2; auto.
Qed.

Lemma substring_prefix_app (a b : jsstring) :
  substring (a ++ b) 0 (length a) = a.
Proof.
  rewrite substring_prefix, firstn_app, Nat.sub_diag, firstn_all; simpl.
  apply app_nil_r.
Qed.

Lemma substringFrom_app (a b : jsstring) : substringFrom (a ++ b) (length a) = b.
Proof.
  unfold substringFrom; rewrite skipn_app, Nat.sub_diag, skipn_all; reflexivity.
Qed.

Lemma substring_middle (a b c : jsstring) :
  substring (a ++ b ++ c) (length a) (length a + length b) = b.
Proof.
  unfold substring; rewrite !length_app.
  rewrite (Nat.min_l (length a)), (Nat.min_l (length a + length b)) by lia.
  rewrite Nat.min_l, Nat.max_r by lia.
  replace (length a + length b - length a) with (length b) by lia.
  rewrite skipn_app, Nat.sub_diag, skipn_all; simpl.
  rewrite firstn_app, Nat.sub_diag, firstn_all; simpl.
  apply app_nil_r.
Qed.

Section Scanning.

Variable p : code_unit -> bool.

Lemma dropWhile_all (l r : jsstring) :
  forallb p l = true -> dropWhile p (l ++ r) = dropWhile p r.
Proof.
  induction l as [|x l IH]; simpl; [reflexivity|].
  intros H; apply andb_prop in H as [Hx Hl]; rewrite Hx; auto.
Qed.

Lemma dropWhile_stop (c : code_unit) (r : jsstring) :
  p c = false -> dropWhile p (c :: r) = c :: r.
Proof. intros H; simpl; rewrite H; reflexivity. Qed.

Lemma dropWhile_all_nil (l : jsstring) :
  forallb p l = true -> dropWhile p l = [].
Proof.
  intros H; rewrite <- (app_nil_r l), dropWhile_all by assumption; reflexivity.
Qed.

Lemma dropWhile_app_stop (l r : jsstring) (c : code_unit) :
  p c = false -> dropWhile p (l ++ c :: r) = dropWhile p l ++ c :: r.
Proof.
  intros Hc; induction l as [|x l IH]; simpl.
  - rewrite Hc; reflexivity.
  - destruct (p x); [exact IH | reflexivity].
Qed.

Lemma takeWhile_all (l : jsstring) :
  forallb p l = true -> takeWhile p l = l.
Proof.
  induction l as [|x l IH]; simpl; [reflexivity|].
  intros H; apply andb_prop in H as [Hx Hl]; rewrite Hx, IH; auto.
Qed.

Lemma takeWhile_stop (l r : jsstring) (c : code_unit) :
  forallb p l = true -> p c = false -> takeWhile p (l ++ c :: r) = l.
Proof.
  intros Hl Hc; induction l as [|x l IH]; simpl.
  - rewrite Hc; reflexivity.
  - simpl in Hl; apply andb_prop in Hl as [Hx Hl]; rewrite Hx, IH; auto.
Qed.

End Scanning.

Lemma trimEnd_stop (l r : jsstring) (c : code_unit) :
  isSpace c = false -> trimEnd (l ++ c :: r) = l ++ c :: trimEnd r.
Proof.
  intros Hc; unfold trimEnd.
  rewrite rev_app_distr; simpl rev; rewrite <- app_assoc; simpl app.
  rewrite dropWhile_app_stop by assumption.
  rewrite rev_app_distr; simpl rev.
  rewrite rev_involutive, <- app_assoc; reflexivity.
Qed.

Lemma trimEnd_allSpace (l : jsstring) : allSpace l = true -> trimEnd l = [].
Proof.
  intros H; unfold trimEnd; rewrite dropWhile_all_nil; [reflexivity|].
  unfold allSpace in H; rewrite forallb_forall in *; intros x Hx.
  apply H, in_rev; assumption.
Qed.

(** *** The classes are disjoint *)

Lemma isBullet_cases (c : code_unit) :
  isBullet c = true ->
  c = Chars.hyphen \/ c = Chars.asterisk \/ c = Chars.bullet.
Proof.
  unfold isBullet; intros H.
  apply orb_prop in H as [H|H]; [apply orb_prop in H as [H|H]|];
    apply N.eqb_eq in H; auto.
Qed.

Lemma isBullet_not_space (c : code_unit) : isBullet c = true -> isSpace c = false.
Proof.
  intros H; destruct (isBullet_cases c H) as [->|[->| ->]]; reflexivity.
Qed.

Lemma isDigit_cases (c : code_unit) :
  isDigit c = true -> exists k : nat, k < 10 /\ c = (Chars.zero + N.of_nat k)%N.
Proof.
  unfold isDigit, Chars.zero, Chars.nine; intros H.
  apply andb_prop in H as [H1 H2].
  apply N.leb_le in H1, H2.
  exists (N.to_nat (c - 48)); split; lia.
Qed.

Lemma isDigit_not_other (c : code_unit) :
  isDigit c = true ->
  isSpace c = false /\ isBullet c = false /\ (c =? Chars.period)%N = false.
Proof.
  intros H; destruct (isDigit_cases c H) as (k & Hk & ->).
  do 10 (destruct k as [|k]; [repeat split|]); lia.
Qed.

(** *** Searching for the line feeds around the caret *)

Lemma lastIndexOf_lower (s : jsstring) (c : code_unit) : (-1 <= lastIndexOf s c)%Z.
Proof.
  induction s as [|x s IH]; simpl; [lia|].
  destruct (lastIndexOf s c =? -1)%Z eqn:E.
  - destruct (x =? c)%N; lia.
  - lia.
Qed.

Lemma lastIndexOf_app (a b : jsstring) (c : code_unit) :
  lastIndexOf (a ++ b) c
  = if (lastIndexOf b c =? -1)%Z then lastIndexOf a c
    else (Z.of_nat (length a) + lastIndexOf b c)%Z.
Proof.
  pose proof (lastIndexOf_lower b c) as Hb.
  induction a as [|x a IH].
  - simpl; destruct (Z.eqb_spec (lastIndexOf b c) (-1)); lia.
  - change ((x :: a) ++ b) with (x :: (a ++ b)).
    cbn [lastIndexOf]; rewrite IH.
    destruct (Z.eqb_spec (lastIndexOf b c) (-1)) as [E|E]; [reflexivity|].
    destruct (Z.eqb_spec (Z.of_nat (length a) + lastIndexOf b c) (-1));
      simpl length; lia.
Qed.

Lemma lastIndexOf_noLF (l : jsstring) :
  noLF l = true -> lastIndexOf l Chars.LF = (-1)%Z.
Proof.
  induction l as [|x l IH]; simpl; [reflexivity|].
  intros H; apply andb_prop in H as [Hx Hl].
  rewrite (IH Hl); simpl.
  destruct (x =? Chars.LF)%N; [discriminate | reflexivity].
Qed.

Lemma indexOf_lower (s : jsstring) (c : code_unit) : (-1 <= indexOf s c)%Z.
Proof.
  induction s as [|x s IH]; simpl; [lia|].
  destruct (x =? c)%N; [lia|].
  destruct (indexOf s c =? -1)%Z; lia.
Qed.

Lemma indexOf_noLF (a b : jsstring) :
  noLF a = true ->
  indexOf (a ++ b) Chars.LF
  = if (indexOf b Chars.LF =? -1)%Z then (-1)%Z
    else (Z.of_nat (length a) + indexOf b Chars.LF)%Z.
Proof.
  induction a as [|x a IH]; intros H.
  - simpl; destruct (Z.eqb_spec (indexOf b Chars.LF) (-1)); lia.
  - simpl in H; apply andb_prop in H as [Hx Ha].
    change ((x :: a) ++ b) with (x :: (a ++ b)); cbn [indexOf].
    destruct (x =? Chars.LF)%N; [discriminate|].
    rewrite (IH Ha).
    destruct (Z.eqb_spec (indexOf b Chars.LF) (-1)) as [E|E]; [reflexivity|].
    pose proof (indexOf_lower b Chars.LF).
    destruct (Z.eqb_spec (Z.of_nat (length a) + indexOf b Chars.LF) (-1));
      simpl length; lia.
Qed.

Lemma endsLine_cases (pre : jsstring) :
  endsLine pre = true -> pre = [] \/ exists p, pre = p ++ [Chars.LF].
Proof.
  unfold endsLine; intros H.
  destruct (rev pre) as [|c l] eqn:E.
  - left; rewrite <- (rev_involutive pre), E; reflexivity.
  - right; exists (rev l); apply N.eqb_eq in H; subst c.
    rewrite <- (rev_involutive pre), E; reflexivity.
Qed.

Lemma startsLine_indexOf (post : jsstring) :
  startsLine post = true ->
  indexOf post Chars.LF = if Nat.eqb (length post) 0 then (-1)%Z else 0%Z.
Proof.
  destruct post as [|c post]; simpl; [reflexivity|].
  intros H; rewrite H; reflexivity.
Qed.

(** The line of the caret in a buffer cut as [pre ++ mid ++ rest ++ post]. *)
Section LineOfCaret.

Variables pre mid rest post : jsstring.
Hypothesis Hpre : endsLine pre = true.
Hypothesis Hline : noLF (mid ++ rest) = true.
Hypothesis Hpost : startsLine post = true.

Local Abbreviation buffer := (pre ++ mid ++ rest ++ post).
Local Abbreviation cursor := (length (pre ++ mid)).

Lemma noLF_app (a b : jsstring) : noLF (a ++ b) = noLF a && noLF b.
Proof. apply forallb_app. Qed.

Lemma buffer_before_caret : substring buffer 0 cursor = pre ++ mid.
Proof.
  rewrite (app_assoc pre mid); apply substring_prefix_app.
Qed.

Lemma buffer_after_caret : substringFrom buffer cursor = rest ++ post.
Proof.
  rewrite (app_assoc pre mid); apply substringFrom_app.
Qed.

Lemma lineStartIndexOf_cut : lineStartIndexOf buffer cursor = length pre.
Proof.
  unfold lineStartIndexOf; rewrite buffer_before_caret.
  rewrite noLF_app in Hline; apply andb_prop in Hline as [Hmid _].
  rewrite lastIndexOf_app, (lastIndexOf_noLF _ Hmid); simpl.
  destruct (endsLine_cases _ Hpre) as [->|[p ->]]; [reflexivity|].
  rewrite lastIndexOf_app; simpl.
  rewrite length_app; simpl.
  destruct (Z.eqb_spec (Z.of_nat (length p) + 0) (-1)); lia.
Qed.

Lemma getCurrentLine_cut : getCurrentLine buffer cursor = mid ++ rest.
Proof.
  unfold getCurrentLine; rewrite lineStartIndexOf_cut, buffer_after_caret.
  rewrite noLF_app in Hline; apply andb_prop in Hline as [_ Hrest].
  rewrite (indexOf_noLF rest post Hrest), (startsLine_indexOf post Hpost).
  assert (Hmiddle : substring buffer (length pre)
                      (length pre + length (mid ++ rest)) = mid ++ rest).
  { rewrite (app_assoc mid rest post); apply substring_middle. }
  assert (Hlen : length buffer = length pre + length (mid ++ rest) + length post).
  { rewrite !length_app; lia. }
  assert (Hcur : cursor + length rest = length pre + length (mid ++ rest)).
  { rewrite !length_app; lia. }
  destruct post as [|c post']; cbn [length Nat.eqb Z.eqb].
  - simpl in Hlen; rewrite Hlen, Nat.add_0_r; exact Hmiddle.
  - destruct (Z.eqb_spec (Z.of_nat (length rest) + 0) (-1)); [lia|].
    rewrite Z.add_0_r, Nat2Z.id, Hcur; exact Hmiddle.
Qed.

End LineOfCaret.

(** ** Binary64 arithmetic: auxiliary facts *)

Section Binary64.

Local Open Scope Z_scope.

Lemma iter_pos_nat {A : Type} (f : A -> A) (p : positive) (x : A) :
  iter_pos f p x = Nat.iter (Pos.to_nat p) f x.
Proof.
  revert x; induction p as [p IH|p IH|]; intros x; cbn [iter_pos].
  - rewrite !IH, Pos2Nat.inj_xI.
    replace (S (2 * Pos.to_nat p))%nat
      with (Pos.to_nat p + (Pos.to_nat p + 1))%nat by lia.
    rewrite !Nat.iter_add; reflexivity.
  - rewrite !IH, Pos2Nat.inj_xO.
    replace (2 * Pos.to_nat p)%nat with (Pos.to_nat p + Pos.to_nat p)%nat by lia.
    rewrite Nat.iter_add; reflexivity.
  - reflexivity.
Qed.

Lemma shr_1_nonneg (m : Z) (r s : bool) :
  0 <= m ->
  shr_1 (Build_shr_record m r s) = Build_shr_record (m / 2) (Z.odd m) (r || s).
Proof.
  intros Hm.
  assert (E : m / 2 = Z.div2 m) by (rewrite Z.div2_div; reflexivity).
  rewrite E; destruct m as [|[p|p|]|]; try reflexivity; lia.
Qed.

(** The record after [k + 1] one-bit shifts of an exact non-negative
    mantissa: the quotient, the last bit shifted out, and whether a bit
    shifted out before it was set. *)
Lemma shr_iter (m : Z) (k : nat) :
  0 <= m ->
  Nat.iter (S k) shr_1 (Build_shr_record m false false)
  = Build_shr_record (m / 2 ^ (Z.of_nat (S k)))
                     (Z.odd (m / 2 ^ Z.of_nat k))
                     (negb (m mod 2 ^ Z.of_nat k =? 0)).
Proof.
  intros Hm; induction k as [|k IH].
  - change (Nat.iter 1 shr_1 ?x) with (shr_1 x); rewrite shr_1_nonneg by assumption.
    change (2 ^ Z.of_nat 1) with 2; change (2 ^ Z.of_nat 0) with 1.
    rewrite Z.div_1_r, Z.mod_1_r; reflexivity.
  - change (Nat.iter (S (S k)) shr_1 ?x) with (shr_1 (Nat.iter (S k) shr_1 x)).
    rewrite IH, shr_1_nonneg by (apply Z.div_pos; lia).
    f_equal.
    + rewrite Z.div_div by lia.
      rewrite (Nat2Z.inj_succ (S k)), Z.pow_succ_r by lia.
      f_equal; lia.
    + rewrite (Nat2Z.inj_succ k), Z.pow_succ_r by lia.
      rewrite (Z.mul_comm 2), Z.rem_mul_r by lia.
      set (a := m mod 2 ^ Z.of_nat k).
      set (q := m / 2 ^ Z.of_nat k).
      assert (0 <= a < 2 ^ Z.of_nat k) by (apply Z.mod_pos_bound; lia).
      assert (Hq : Z.odd q = negb (q mod 2 =? 0)).
      { rewrite Zodd_mod. destruct (Z.eqb_spec (q mod 2) 1), (Z.eqb_spec (q mod 2) 0);
          simpl; try reflexivity; pose proof (Z.mod_pos_bound q 2); lia. }
      rewrite Hq.
      assert (0 <= q mod 2 < 2) by (apply Z.mod_pos_bound; lia).
      destruct (Z.eqb_spec (q mod 2) 0), (Z.eqb_spec a 0),
        (Z.eqb_spec (a + 2 ^ Z.of_nat k * (q mod 2)) 0); simpl; try reflexivity; nia.
Qed.

Lemma shr_exact (m e n : Z) :
  0 <= m ->
  shr (Build_shr_record m false false) e n
  = if 0 <? n
    then (Build_shr_record (m / 2 ^ n) (Z.odd (m / 2 ^ (n - 1)))
            (negb (m mod 2 ^ (n - 1) =? 0)), e + n)
    else (Build_shr_record m false false, e).
Proof.
  intros Hm; destruct n as [|p|p]; try reflexivity.
  cbn [shr Z.ltb Z.compare].
  rewrite iter_pos_nat.
  destruct (Pos2Nat.is_succ p) as [k Hk]; rewrite Hk, shr_iter by assumption.
  replace (Z.of_nat (S k)) with (Z.pos p) by lia.
  replace (Z.of_nat k) with (Z.pos p - 1) by lia.
  reflexivity.
Qed.

Lemma digits2_pos_bounds (p : positive) :
  2 ^ (Z.pos (digits2_pos p) - 1) <= Z.pos p < 2 ^ Z.pos (digits2_pos p).
Proof.
  induction p as [p IH|p IH|]; cbn [digits2_pos].
  - rewrite Pos2Z.inj_succ, Z.pow_succ_r by lia.
    replace (Z.succ (Z.pos (digits2_pos p)) - 1)
      with (Z.succ (Z.pos (digits2_pos p) - 1)) by lia.
    rewrite Z.pow_succ_r by lia. lia.
  - rewrite Pos2Z.inj_succ, Z.pow_succ_r by lia.
    replace (Z.succ (Z.pos (digits2_pos p)) - 1)
      with (Z.succ (Z.pos (digits2_pos p) - 1)) by lia.
    rewrite Z.pow_succ_r by lia. lia.
  - simpl; lia.
Qed.

Lemma Zdigits2_bounds (m : Z) :
  0 < m -> 2 ^ (Zdigits2 m - 1) <= m < 2 ^ Zdigits2 m.
Proof.
  destruct m as [|p|p]; try lia; intros _; apply digits2_pos_bounds.
Qed.

Lemma Zdigits2_nonneg (m : Z) : 0 <= Zdigits2 m.
Proof. destruct m; simpl; lia. Qed.

Lemma Zdigits2_le (m k : Z) : 0 <= k -> 0 <= m < 2 ^ k -> Zdigits2 m <= k.
Proof.
  intros Hk [H0 Hm].
  destruct (Z.eq_dec m 0) as [->|Hne]; [simpl; lia|].
  pose proof (Zdigits2_bounds m ltac:(lia)) as [Hlo _].
  destruct (Z.le_gt_cases (Zdigits2 m) k) as [|Hgt]; [assumption|].
  assert (2 ^ k <= 2 ^ (Zdigits2 m - 1)) by (apply Z.pow_le_mono_r; lia).
  lia.
Qed.

Lemma Zdigits2_gt (m k : Z) : 0 <= k -> 2 ^ k <= m -> k < Zdigits2 m.
Proof.
  intros Hk Hm.
  assert (0 < 2 ^ k) by (apply Z.pow_pos_nonneg; lia).
  pose proof (Zdigits2_bounds m ltac:(lia)) as [_ Hhi].
  destruct (Z.lt_ge_cases k (Zdigits2 m)) as [|Hge]; [assumption|].
  assert (2 ^ Zdigits2 m <= 2 ^ k)
    by (apply Z.pow_le_mono_r; [lia | assumption]).
  lia.
Qed.

(** The digits of an exact quotient and of a product by a power of two. *)
Lemma Zdigits2_unique (m k : Z) :
  0 < k -> 2 ^ (k - 1) <= m < 2 ^ k -> Zdigits2 m = k.
Proof.
  intros Hk [Hlo Hhi].
  pose proof (Zdigits2_le m k ltac:(lia)).
  pose proof (Zdigits2_gt m (k - 1) ltac:(lia) Hlo).
  assert (0 <= m) by (pose proof (Z.pow_nonneg 2 (k - 1)); lia).
  lia.
Qed.

Lemma round_nearest_even_bounds (q : Z) (l : location) :
  q <= round_nearest_even q l <= q + 1.
Proof. destruct l as [|[| |]]; simpl; try destruct (Z.even q); lia. Qed.

(** The two stages of [binary_round_aux] on an exact positive mantissa:
    the shift to the target exponent with rounding to nearest, ties to
    even, then the renormalising shift in case the rounding carried. *)
Lemma binary_round_aux_stages (s : bool) (M e : Z) :
  0 < M ->
  let n := fexp prec emax (Zdigits2 M + e) - e in
  let m1 :=
    if 0 <? n
    then round_nearest_even (M / 2 ^ n)
           (loc_of_shr_record
              (Build_shr_record (M / 2 ^ n) (Z.odd (M / 2 ^ (n - 1)))
                 (negb (M mod 2 ^ (n - 1) =? 0))))
    else M in
  let e1 := if 0 <? n then e + n else e in
  let n2 := fexp prec emax (Zdigits2 m1 + e1) - e1 in
  let m2 := if 0 <? n2 then m1 / 2 ^ n2 else m1 in
  let e2 := if 0 <? n2 then e1 + n2 else e1 in
  binary_round_aux prec emax s M e loc_Exact
  = match m2 with
    | 0 => S754_zero s
    | Z.pos m => if e2 <=? emax - prec then S754_finite s m e2 else S754_infinity s
    | Z.neg _ => S754_nan
    end.
Proof.
  intros HM n m1 e1 n2 m2 e2.
  assert (Hm1 : 0 <= m1).
  { unfold m1; destruct (Z.ltb_spec 0 n) as [Hn|Hn]; [|lia].
    assert (0 <= M / 2 ^ n)
      by (apply Z.div_pos; [lia | apply Z.pow_pos_nonneg; lia]).
    match goal with |- 0 <= round_nearest_even ?q ?l =>
      pose proof (round_nearest_even_bounds q l) end.
    lia. }
  unfold binary_round_aux, shr_fexp.
  cbn [shr_record_of_loc].
  rewrite shr_exact by lia.
  fold n.
  replace (let '(mrs', e') :=
             if 0 <? n
             then (Build_shr_record (M / 2 ^ n) (Z.odd (M / 2 ^ (n - 1)))
                     (negb (M mod 2 ^ (n - 1) =? 0)), e + n)
             else (Build_shr_record M false false, e) in
           let '(mrs'', e'') :=
             shr (Build_shr_record
                    (round_nearest_even (shr_m mrs') (loc_of_shr_record mrs'))
                    false false) e'
               (fexp prec emax
                  (Zdigits2 (round_nearest_even (shr_m mrs')
                               (loc_of_shr_record mrs')) + e') - e') in
           match shr_m mrs'' with
           | 0 => S754_zero s
           | Z.pos m =>
               if e'' <=? emax - prec then S754_finite s m e'' else S754_infinity s
           | Z.neg _ => S754_nan
           end)
    with (let '(mrs'', e'') :=
            shr (Build_shr_record m1 false false) e1 n2 in
          match shr_m mrs'' with
          | 0 => S754_zero s
          | Z.pos m =>
              if e'' <=? emax - prec then S754_finite s m e'' else S754_infinity s
          | Z.neg _ => S754_nan
          end).
  2:{ unfold n2, m1, e1; destruct (0 <? n); reflexivity. }
  rewrite shr_exact by assumption.
  unfold m2, e2; destruct (0 <? n2); reflexivity.
Qed.

Lemma Zdigits2_pos (m : Z) : 0 < m -> 0 < Zdigits2 m.
Proof. destruct m; simpl; lia. Qed.

Lemma Zdigits2_shift (q n : Z) :
  0 < q -> 0 <= n -> Zdigits2 (q * 2 ^ n) = Zdigits2 q + n.
Proof.
  intros Hq Hn.
  pose proof (Zdigits2_bounds q Hq) as [Hlo Hhi].
  pose proof (Zdigits2_pos q Hq) as Hd.
  assert (H2 : 0 < 2 ^ n) by (apply Z.pow_pos_nonneg; lia).
  apply Zdigits2_unique; [lia|].
  replace (Zdigits2 q + n - 1) with (Zdigits2 q - 1 + n) by lia.
  rewrite !Z.pow_add_r by lia.
  split; [apply Z.mul_le_mono_nonneg_r | apply Z.mul_lt_mono_pos_r]; lia.
Qed.

(** A positive mantissa whose bits below the target exponent are all zero
    is rounded to itself: the result is the same value at the target
    exponent. *)
Lemma binary_round_aux_exact (s : bool) (M e : Z) :
  0 < M ->
  let f := Z.max e (fexp prec emax (Zdigits2 M + e)) in
  M mod 2 ^ (f - e) = 0 ->
  f <= emax - prec ->
  binary_round_aux prec emax s M e loc_Exact
  = S754_finite s (Z.to_pos (M / 2 ^ (f - e))) f.
Proof.
  intros HM f Hmod Hf.
  rewrite binary_round_aux_stages by assumption.
  set (n := fexp prec emax (Zdigits2 M + e) - e) in *.
  destruct (Z.ltb_spec 0 n) as [Hn|Hn].
  - assert (Ef : f = e + n) by (unfold f, n; lia).
    replace (f - e) with n in * by lia.
    set (q := M / 2 ^ n) in *.
    assert (H2 : 0 < 2 ^ n) by (apply Z.pow_pos_nonneg; lia).
    assert (EM : M = q * 2 ^ n).
    { unfold q; rewrite (Z.div_mod M (2 ^ n)) at 1 by lia. lia. }
    assert (Hq : 0 < q) by nia.
    assert (E2 : 2 ^ n = 2 * 2 ^ (n - 1)).
    { rewrite <- Z.pow_succ_r by lia; f_equal; lia. }
    assert (H2' : 0 < 2 ^ (n - 1)) by (apply Z.pow_pos_nonneg; lia).
    assert (Ehalf : M / 2 ^ (n - 1) = 2 * q).
    { rewrite EM, E2.
      replace (q * (2 * 2 ^ (n - 1))) with (2 * q * 2 ^ (n - 1)) by lia.
      apply Z.div_mul; lia. }
    assert (Esticky : M mod 2 ^ (n - 1) = 0).
    { rewrite EM, E2.
      replace (q * (2 * 2 ^ (n - 1))) with (2 * q * 2 ^ (n - 1)) by lia.
      apply Z.mod_mul; lia. }
    rewrite Ehalf, Esticky, Z.odd_mul; cbn [Z.odd andb Z.eqb negb loc_of_shr_record
                                            round_nearest_even].
    assert (Ed : Zdigits2 q + (e + n) = Zdigits2 M + e).
    { rewrite EM, Zdigits2_shift by lia; lia. }
    rewrite Ed; fold n.
    replace (n + e - (e + n)) with 0 by lia.
    replace (fexp prec emax (Zdigits2 M + e) - (e + n)) with 0 by (unfold n; lia).
    cbn [Z.ltb Z.compare].
    destruct q as [|q'|q']; try lia.
    rewrite <- Ef.
    destruct (Z.leb_spec f (emax - prec)); [reflexivity | lia].
  - assert (Ef : f = e) by (unfold f, n in *; lia).
    fold n.
    destruct (Z.ltb_spec 0 n) as [|_]; [lia|].
    rewrite Ef, Z.sub_diag, Z.pow_0_r, Z.div_1_r.
    destruct M as [|M'|M']; try lia.
    destruct (Z.leb_spec e (emax - prec)); [reflexivity | lia].
Qed.

Lemma shl_align_spec (mx : positive) (ex ex' : Z) :
  shl_align mx ex ex'
  = if ex' <? ex then (Z.to_pos (Z.pos mx * 2 ^ (ex - ex')), ex') else (mx, ex).
Proof.
  unfold shl_align.
  destruct (Z.ltb_spec ex' ex) as [H|H].
  - destruct (ex' - ex) as [|d|d] eqn:E; try lia.
    replace (ex - ex') with (Z.pos d) by lia.
    f_equal.
    pose proof (Zpower.shift_pos_correct d mx) as Hs.
    unfold Zpower.shift_pos in Hs.
    change (Z.pow_pos 2 d) with (2 ^ Z.pos d) in Hs.
    rewrite Z.mul_comm, <- Hs; reflexivity.
  - destruct (ex' - ex) as [|d|d] eqn:E; try lia; reflexivity.
Qed.

Lemma shl_align_fst (mx : positive) (ex ez : Z) :
  ez <= ex -> Z.pos (fst (shl_align mx ex ez)) = Z.pos mx * 2 ^ (ex - ez).
Proof.
  intros H; rewrite shl_align_spec.
  destruct (Z.ltb_spec ez ex) as [Hlt|Hge]; cbn [fst].
  - assert (0 < 2 ^ (ex - ez)) by (apply Z.pow_pos_nonneg; lia).
    rewrite Z2Pos.id by nia; reflexivity.
  - replace (ex - ez) with 0 by lia; rewrite Z.pow_0_r; lia.
Qed.

(** Rounding a value that the format represents exactly. *)
Lemma binary_round_exact (s : bool) (m : positive) (e : Z) :
  let f := fexp prec emax (Zdigits2 (Z.pos m) + e) in
  (e < f -> Z.pos m mod 2 ^ (f - e) = 0) ->
  f <= emax - prec ->
  binary_round prec emax s m e
  = S754_finite s
      (Z.to_pos (if e <? f then Z.pos m / 2 ^ (f - e) else Z.pos m * 2 ^ (e - f)))
      f.
Proof.
  intros f Hmod Hf.
  unfold binary_round.
  change (Z.pos (digits2_pos m)) with (Zdigits2 (Z.pos m)); fold f.
  rewrite shl_align_spec.
  destruct (Z.ltb_spec f e) as [Hlt|Hge].
  - assert (H2 : 0 < 2 ^ (e - f)) by (apply Z.pow_pos_nonneg; lia).
    rewrite Z2Pos.id by nia.
    rewrite binary_round_aux_exact.
    + rewrite Zdigits2_shift by lia.
      replace (Zdigits2 (Z.pos m) + (e - f) + f) with (Zdigits2 (Z.pos m) + e) by lia.
      fold f; rewrite Z.max_id, Z.sub_diag, Z.pow_0_r, Z.div_1_r.
      destruct (Z.ltb_spec e f); [lia | reflexivity].
    + nia.
    + rewrite Zdigits2_shift by lia.
      replace (Zdigits2 (Z.pos m) + (e - f) + f) with (Zdigits2 (Z.pos m) + e) by lia.
      fold f; rewrite Z.max_id, Z.sub_diag, Z.pow_0_r; apply Z.mod_1_r.
    + rewrite Zdigits2_shift by lia.
      replace (Zdigits2 (Z.pos m) + (e - f) + f) with (Zdigits2 (Z.pos m) + e) by lia.
      fold f; lia.
  - rewrite binary_round_aux_exact; fold f.
    + rewrite Z.max_r by lia.
      destruct (Z.ltb_spec e f) as [|Heq]; [reflexivity|].
      replace (f - e) with 0 by lia; replace (e - f) with 0 by lia.
      rewrite Z.pow_0_r, Z.div_1_r, Z.mul_1_r; reflexivity.
    + lia.
    + rewrite Z.max_r by lia.
      destruct (Z.eq_dec e f) as [Heq|Hne].
      * replace (f - e) with 0 by lia; rewrite Z.pow_0_r; apply Z.mod_1_r.
      * apply Hmod; lia.
    + lia.
Qed.

Lemma fexp_normal (x : Z) : -1021 <= x -> fexp prec emax x = x - 53.
Proof. unfold fexp, emin, prec, emax; lia. Qed.

Lemma fexp_bounds (x : Z) :
  fexp prec emax x = Z.max (x - 53) (-1074).
Proof. reflexivity. Qed.

Lemma two53_pow : two53 = 2 ^ 53.
Proof. reflexivity. Qed.

Lemma Zdigits2_two53 (v : Z) : 0 < v <= two53 -> 1 <= Zdigits2 v <= 54.
Proof.
  intros [H0 H1]; split.
  - pose proof (Zdigits2_pos v H0); lia.
  - apply Zdigits2_le; [lia|]. rewrite two53_pow in H1.
    change (2 ^ 54) with (2 * 2 ^ 53); lia.
Qed.

Lemma Zdigits2_below_two53 (v : Z) : 0 < v < two53 -> 1 <= Zdigits2 v <= 53.
Proof.
  intros [H0 H1]; split.
  - pose proof (Zdigits2_pos v H0); lia.
  - apply Zdigits2_le; [lia|]. rewrite two53_pow in H1; lia.
Qed.

(** The binary64 value of an integer between 1 and 2^53: the integer
    itself, with its leading bit moved to bit 52 of the mantissa. *)
Lemma Number_of_Z_below (v : Z) :
  0 < v < two53 ->
  Number_of_Z v
  = S754_finite false (Z.to_pos (v * 2 ^ (53 - Zdigits2 v))) (Zdigits2 v - 53).
Proof.
  intros Hv.
  pose proof (Zdigits2_below_two53 v Hv) as Hd.
  destruct v as [|p|p]; try lia.
  unfold Number_of_Z, binary_normalize.
  rewrite binary_round_exact; rewrite Z.add_0_r, fexp_normal by lia.
  - destruct (Z.ltb_spec 0 (Zdigits2 (Z.pos p) - 53)); [lia|].
    replace (0 - (Zdigits2 (Z.pos p) - 53)) with (53 - Zdigits2 (Z.pos p)) by lia.
    reflexivity.
  - lia.
  - unfold emax, prec; lia.
Qed.

Lemma pow2_split (x y : Z) : 0 <= x -> 0 <= y -> 2 ^ (x + y) = 2 ^ x * 2 ^ y.
Proof. intros; apply Z.pow_add_r; assumption. Qed.

Lemma pow2_pos (x : Z) : 0 <= x -> 0 < 2 ^ x.
Proof. intros; apply Z.pow_pos_nonneg; lia. Qed.

(** Adding two positive integers whose sum is at most 2^53 is exact. *)
Lemma Number_add_pos (a b : Z) :
  0 < a -> 0 < b -> a + b <= two53 ->
  Number_add (Number_of_Z a) (Number_of_Z b) = Number_of_Z (a + b).
Proof.
  intros Ha Hb Hab.
  pose proof (Zdigits2_below_two53 a ltac:(lia)) as Hda.
  pose proof (Zdigits2_below_two53 b ltac:(lia)) as Hdb.
  pose proof (Zdigits2_two53 (a + b) ltac:(lia)) as Hdg.
  rewrite (Number_of_Z_below a), (Number_of_Z_below b) by lia.
  unfold Number_add, SFadd; cbv [cond_Zopp].
  set (ez := Z.min (Zdigits2 a - 53) (Zdigits2 b - 53)).
  rewrite !shl_align_fst by lia.
  pose proof (pow2_pos (53 - Zdigits2 a) ltac:(lia)).
  pose proof (pow2_pos (53 - Zdigits2 b) ltac:(lia)).
  rewrite !Z2Pos.id by nia.
  rewrite <- !Z.mul_assoc, <- !pow2_split by lia.
  replace (53 - Zdigits2 a + (Zdigits2 a - 53 - ez)) with (- ez) by lia.
  replace (53 - Zdigits2 b + (Zdigits2 b - 53 - ez)) with (- ez) by lia.
  rewrite <- Z.mul_add_distr_r.
  set (g := Zdigits2 (a + b)) in *.
  pose proof (pow2_pos (- ez) ltac:(lia)) as Hez.
  assert (Hdig : Zdigits2 ((a + b) * 2 ^ (- ez)) = g - ez).
  { rewrite Zdigits2_shift by lia; fold g; lia. }
  assert (Hexact : 53 < g -> a + b = two53).
  { intros Hg. assert (53 < Zdigits2 (a + b)) by exact Hg.
    destruct (Z.eq_dec (a + b) two53) as [|Hne]; [assumption|].
    pose proof (Zdigits2_below_two53 (a + b) ltac:(lia)); lia. }
  unfold Number_of_Z.
  destruct ((a + b) * 2 ^ (- ez)) as [|pS|pS] eqn:ES; try nia.
  destruct (a + b) as [|q|q] eqn:Eq; try lia.
  unfold binary_normalize.
  rewrite !binary_round_exact; rewrite ?Hdig, ?Z.add_0_r; fold g;
    replace (g - ez + ez) with g by lia; rewrite ?fexp_normal by lia.
  - f_equal; f_equal.
    destruct (Z.ltb_spec 0 (g - 53)) as [Hbig|Hsmall].
    + destruct (Z.ltb_spec ez (g - 53)); [|lia].
      pose proof (Hexact ltac:(lia)) as E53.
      assert (Eg : g = 54) by lia.
      replace (g - 53 - ez) with (1 + - ez) by lia.
      replace (g - 53) with 1 by lia.
      rewrite pow2_split by lia.
      rewrite <- ES, E53, two53_pow.
      change (2 ^ 53) with (2 ^ 52 * 2 ^ 1).
      rewrite <- Z.mul_assoc, Z.div_mul by (change (2 ^ 1) with 2; lia).
      rewrite Z.div_mul by (change (2 ^ 1) with 2; lia).
      reflexivity.
    + assert (E1 : Z.pos pS = Z.pos q * 2 ^ (0 - (g - 53)) * 2 ^ (g - 53 - ez)
                   \/ ez >= g - 53).
      { destruct (Z.lt_ge_cases ez (g - 53)); [left | right; lia].
        rewrite <- Z.mul_assoc, <- pow2_split by lia.
        replace (0 - (g - 53) + (g - 53 - ez)) with (- ez) by lia; lia. }
      destruct (Z.ltb_spec ez (g - 53)) as [Hlt|Hge].
      * destruct E1 as [E1|]; [|lia].
        rewrite E1, Z.div_mul by (pose proof (pow2_pos (g - 53 - ez)); lia).
        reflexivity.
      * rewrite <- ES, <- Z.mul_assoc, <- pow2_split by lia.
        replace (- ez + (ez - (g - 53))) with (0 - (g - 53)) by lia; reflexivity.
  - intros Hbig. rewrite (Hexact ltac:(lia)), two53_pow.
    assert (g = 54) by lia.
    replace (g - 53 - 0) with 1 by lia; reflexivity.
  - unfold emax, prec; lia.
  - intros Hlt.
    destruct (Z.lt_ge_cases 53 g) as [Hbig|Hsmall].
    + rewrite <- ES, (Hexact Hbig), two53_pow.
      assert (g = 54) by lia.
      replace (g - 53 - ez) with (1 + - ez) by lia.
      rewrite pow2_split by lia.
      change (2 ^ 53) with (2 ^ 52 * 2 ^ 1).
      rewrite <- Z.mul_assoc; apply Z.mod_mul.
      pose proof (pow2_pos 1); nia.
    + rewrite <- ES.
      replace (- ez) with ((53 - g) + (g - 53 - ez)) by lia.
      rewrite pow2_split, Z.mul_assoc by lia.
      apply Z.mod_mul; pose proof (pow2_pos (g - 53 - ez)); lia.
  - unfold emax, prec; lia.
Qed.

Lemma Number_of_Z_two53 :
  Number_of_Z two53 = S754_finite false 4503599627370496 1.
Proof. vm_compute; reflexivity. Qed.

(** Integer arithmetic on Numbers is exact up to 2^53. *)
Lemma Number_add_exact (a b : Z) :
  0 <= a -> 0 <= b -> a + b <= two53 ->
  Number_add (Number_of_Z a) (Number_of_Z b) = Number_of_Z (a + b).
Proof.
  intros Ha Hb Hab.
  destruct (Z.eq_dec a 0) as [->|Ha0]; [|destruct (Z.eq_dec b 0) as [->|Hb0]].
  - rewrite Z.add_0_l.
    destruct (Z.eq_dec b 0) as [->|Hb0]; [reflexivity|].
    destruct (Z.eq_dec b two53) as [->|Hb53].
    + rewrite Number_of_Z_two53; reflexivity.
    + rewrite (Number_of_Z_below b) by lia; reflexivity.
  - rewrite Z.add_0_r.
    destruct (Z.eq_dec a two53) as [->|Ha53].
    + rewrite Number_of_Z_two53; reflexivity.
    + rewrite (Number_of_Z_below a) by lia; reflexivity.
  - apply Number_add_pos; lia.
Qed.

Lemma Number_toString_of_Z (v : Z) :
  0 <= v <= two53 -> Number_toString (Number_of_Z v) = decimal v.
Proof.
  intros Hv.
  destruct (Z.eq_dec v 0) as [->|H0]; [reflexivity|].
  destruct (Z.eq_dec v two53) as [->|H53]; [vm_compute; reflexivity|].
  pose proof (Zdigits2_below_two53 v ltac:(lia)) as Hd.
  rewrite Number_of_Z_below by lia.
  pose proof (pow2_pos (53 - Zdigits2 v) ltac:(lia)) as Hp.
  unfold Number_toString.
  rewrite Z2Pos.id by nia.
  destruct (Z.leb_spec 0 (Zdigits2 v - 53)) as [Hge|Hlt].
  - replace (Zdigits2 v - 53) with 0 by lia.
    replace (53 - Zdigits2 v) with 0 by lia.
    rewrite !Z.pow_0_r, !Z.mul_1_r.
    destruct (Z.leb_spec v two53); [reflexivity | lia].
  - replace (- (Zdigits2 v - 53)) with (53 - Zdigits2 v) by lia.
    rewrite Z.mod_mul, Z.div_mul by lia.
    cbn [Z.eqb andb].
    destruct (Z.leb_spec v two53); [reflexivity | lia].
Qed.

Lemma ToUint16_of_Z (v : Z) :
  0 <= v < 65536 -> ToUint16 (Number_of_Z v) = Z.to_N v.
Proof.
  intros Hv.
  destruct (Z.eq_dec v 0) as [->|H0]; [reflexivity|].
  assert (H53 : 0 < v < two53) by (unfold two53; lia).
  pose proof (Zdigits2_below_two53 v H53) as Hd.
  rewrite Number_of_Z_below by lia.
  pose proof (pow2_pos (53 - Zdigits2 v) ltac:(lia)) as Hp.
  unfold ToUint16, truncZ; cbv [cond_Zopp].
  rewrite Z2Pos.id by nia.
  destruct (Z.leb_spec 0 (Zdigits2 v - 53)) as [Hge|Hlt].
  - replace (Zdigits2 v - 53) with 0 by lia.
    replace (53 - Zdigits2 v) with 0 by lia.
    rewrite !Z.pow_0_r, !Z.mul_1_r, Z.mod_small by lia; reflexivity.
  - replace (- (Zdigits2 v - 53)) with (53 - Zdigits2 v) by lia.
    rewrite Z.div_mul, Z.mod_small by lia; reflexivity.
Qed.

Lemma digitsValue_nonneg (ds : jsstring) : 0 <= digitsValue ds.
Proof.
  unfold digitsValue.
  assert (H : forall acc, 0 <= acc ->
            0 <= fold_left (fun acc c => acc * 10 + digitValue c) ds acc).
  { induction ds as [|d ds IH]; intros acc Hacc; simpl; [assumption|].
    apply IH; unfold digitValue; lia. }
  apply H; lia.
Qed.

(** The numeral that [continueNumberedList] inserts after a number below
    2^53. *)
Lemma nextNumber_toString (ds : jsstring) :
  digitsValue ds < two53 ->
  Number_toString (Number_add (parseInt ds) (Number_of_Z 1))
  = decimal (digitsValue ds + 1).
Proof.
  intros H; pose proof (digitsValue_nonneg ds).
  unfold parseInt.
  rewrite Number_add_exact, Number_toString_of_Z by lia; reflexivity.
Qed.

(** What the two stages amount to: the mantissa [m1] at the target exponent
    [e1] is at most half a unit in the last place above the exact value,
    and the renormalisation only drops low bits of [m1]. *)
Lemma binary_round_aux_bounds (s : bool) (M e : Z) :
  0 < M ->
  exists m1 e1 m2 e2 : Z,
    e1 = Z.max e (fexp prec emax (Zdigits2 M + e)) /\
    0 <= m1 /\
    2 * (m1 * 2 ^ (e1 - e)) <= 2 * M + 2 ^ (e1 - e) /\
    e2 = Z.max e1 (fexp prec emax (Zdigits2 m1 + e1)) /\
    m2 = m1 / 2 ^ (e2 - e1) /\
    binary_round_aux prec emax s M e loc_Exact
    = match m2 with
      | 0 => S754_zero s
      | Z.pos m => if e2 <=? emax - prec then S754_finite s m e2 else S754_infinity s
      | Z.neg _ => S754_nan
      end.
Proof.
  intros HM.
  pose proof (binary_round_aux_stages s M e HM) as Hst; cbv zeta in Hst.
  set (n := fexp prec emax (Zdigits2 M + e) - e) in *.
  set (m1 := if 0 <? n
             then round_nearest_even (M / 2 ^ n)
                    (loc_of_shr_record
                       (Build_shr_record (M / 2 ^ n) (Z.odd (M / 2 ^ (n - 1)))
                          (negb (M mod 2 ^ (n - 1) =? 0))))
             else M) in *.
  set (e1 := if 0 <? n then e + n else e) in *.
  set (n2 := fexp prec emax (Zdigits2 m1 + e1) - e1) in *.
  exists m1, e1, (if 0 <? n2 then m1 / 2 ^ n2 else m1),
         (if 0 <? n2 then e1 + n2 else e1).
  assert (He1 : e1 = Z.max e (fexp prec emax (Zdigits2 M + e))).
  { unfold e1, n; destruct (Z.ltb_spec 0 (fexp prec emax (Zdigits2 M + e) - e)); lia. }
  assert (Hm1 : 0 <= m1 /\ 2 * (m1 * 2 ^ (e1 - e)) <= 2 * M + 2 ^ (e1 - e)).
  { unfold m1, e1; destruct (Z.ltb_spec 0 n) as [Hn|Hn].
    - replace (e + n - e) with n by lia.
      pose proof (pow2_pos (n - 1) ltac:(lia)) as Hp.
      assert (E2 : 2 ^ n = 2 * 2 ^ (n - 1)).
      { rewrite <- Z.pow_succ_r by lia; f_equal; lia. }
      set (h := M / 2 ^ (n - 1)).
      assert (Hh : h * 2 ^ (n - 1) <= M).
      { unfold h; rewrite Z.mul_comm; apply Z.mul_div_le; lia. }
      assert (Hq : M / 2 ^ n = h / 2).
      { unfold h; rewrite E2, Z.mul_comm, Z.div_div by lia; reflexivity. }
      assert (0 <= h) by (apply Z.div_pos; lia).
      rewrite Hq.
      pose proof (Z.div_mod h 2 ltac:(lia)) as Hdm.
      rewrite Zodd_mod.
      pose proof (Z.mod_pos_bound h 2 ltac:(lia)).
      assert (0 <= h / 2) by (apply Z.div_pos; lia).
      destruct (Z.eqb_spec (h mod 2) 1) as [Hodd|Heven];
        destruct (negb (M mod 2 ^ (n - 1) =? 0));
        cbn [loc_of_shr_record round_nearest_even];
        try destruct (Z.even (h / 2)); split; nia.
    - rewrite Z.sub_diag; change (2 ^ 0) with 1; lia. }
  split; [exact He1|].
  split; [exact (proj1 Hm1)|].
  split; [exact (proj2 Hm1)|].
  split; [|split; [|exact Hst]].
  - unfold n2; destruct (Z.ltb_spec 0 (fexp prec emax (Zdigits2 m1 + e1) - e1)); lia.
  - destruct (Z.ltb_spec 0 n2) as [Hn2|Hn2].
    + replace (e1 + n2 - e1) with n2 by lia; reflexivity.
    + rewrite Z.sub_diag, Z.pow_0_r, Z.div_1_r; reflexivity.
Qed.

(** *** The random character *)

Lemma Number_of_Z_94 :
  Number_of_Z (126 - 33 + 1) = S754_finite false 6614661952700416 (-46).
Proof. vm_compute; reflexivity. Qed.

(** [Math.floor(r * 94)] for a positive binary64 value [r] below 1: the
    product is rounded to nearest, and still its integer part is one of
    0, ..., 93. *)
Lemma random_floor (m : positive) (e : Z) :
  e <= -53 -> Z.pos m < 2 ^ 53 ->
  exists z : Z,
    0 <= z <= 93 /\
    Math_floor (Number_mul (S754_finite false m e) (Number_of_Z (126 - 33 + 1)))
    = Number_of_Z z.
Proof.
  intros He Hm.
  rewrite Number_of_Z_94.
  unfold Number_mul, SFmul; cbn [xorb].
  rewrite Pos2Z.inj_mul.
  set (M := Z.pos m * 6614661952700416).
  set (E := e + -46).
  assert (HM : 0 < M) by (unfold M; lia).
  destruct (binary_round_aux_bounds false M E HM)
    as (m1 & e1 & m2 & e2 & He1 & Hm1 & Hup & He2 & Hm2 & Heq).
  rewrite Heq; clear Heq.
  (* the exponents *)
  assert (Hd : Zdigits2 M <= 106).
  { apply Zdigits2_le; [lia|]. unfold M.
    change (2 ^ 106) with (2 ^ 53 * 2 ^ 53) .
    change (2 ^ 53) with 9007199254740992 in *. lia. }
  rewrite fexp_bounds in He1, He2.
  set (k := - e - 53).
  assert (Hn : 0 <= e1 - E <= k + 53) by (unfold E, k in *; lia).
  assert (He1' : e1 <= -46) by (unfold E in *; lia).
  (* the first stage stays below 94 *)
  pose proof (pow2_pos (e1 - E) ltac:(lia)) as Hpn.
  pose proof (pow2_pos (- e1) ltac:(lia)) as Hpe1.
  pose proof (pow2_pos k ltac:(unfold k; lia)) as Hpk.
  assert (Hpow : 2 ^ (e1 - E) <= 9007199254740992 * 2 ^ k).
  { change 9007199254740992 with (2 ^ 53).
    rewrite <- pow2_split by (unfold k; lia).
    apply Z.pow_le_mono_r; lia. }
  assert (HE : 2 ^ (- e1) * 2 ^ (e1 - E) = 70368744177664 * (9007199254740992 * 2 ^ k)).
  { rewrite <- pow2_split by lia.
    change 70368744177664 with (2 ^ 46); change 9007199254740992 with (2 ^ 53).
    rewrite <- !pow2_split by (unfold k; lia).
    f_equal; unfold E, k; lia. }
  assert (Hm1' : m1 < 94 * 2 ^ (- e1)).
  { apply Z.mul_lt_mono_pos_r with (p := 2 * 2 ^ (e1 - E)); [lia|].
    change (2 ^ 53) with 9007199254740992 in Hm.
    unfold M in Hup. nia. }
  (* the second stage *)
  assert (Hd1 : Zdigits2 m1 <= 7 - e1).
  { apply Zdigits2_le; [lia|]. split; [assumption|].
    replace (7 - e1) with (7 + - e1) by lia.
    rewrite pow2_split by lia. change (2 ^ 7) with 128; lia. }
  assert (He2' : e1 <= e2 <= -46) by lia.
  pose proof (pow2_pos (e2 - e1) ltac:(lia)) as Hpn2.
  pose proof (pow2_pos (- e2) ltac:(lia)) as Hpe2.
  assert (HE2 : 2 ^ (- e1) = 2 ^ (- e2) * 2 ^ (e2 - e1)).
  { rewrite <- pow2_split by lia; f_equal; lia. }
  assert (Hm2' : 0 <= m2 < 94 * 2 ^ (- e2)).
  { subst m2; split; [apply Z.div_pos; lia|].
    apply Z.div_lt_upper_bound; [lia|]. rewrite HE2 in Hm1'; lia. }
  destruct m2 as [|p|p]; try lia.
  - exists 0; split; [lia | reflexivity].
  - destruct (Z.leb_spec e2 (emax - prec)) as [_|Hbad];
      [|unfold emax, prec in Hbad; lia].
    exists (Z.pos p / 2 ^ (- e2)); split.
    + split; [apply Z.div_pos; lia|].
      assert (Z.pos p / 2 ^ (- e2) < 94); [|lia].
      apply Z.div_lt_upper_bound; lia.
    + unfold Math_floor, floorZ; cbv [cond_Zopp].
      destruct (Z.leb_spec 0 e2); [lia | reflexivity].
Qed.

Lemma Number_of_Z_1 : Number_of_Z 1 = S754_finite false 4503599627370496 (-52).
Proof. vm_compute; reflexivity. Qed.

Lemma below_one (m : positive) (e : Z) :
  Number_lt (S754_finite false m e) (Number_of_Z 1) = true ->
  e < -52 \/ (e = -52 /\ Z.pos m < 4503599627370496).
Proof.
  rewrite Number_of_Z_1; unfold Number_lt, SFltb, SFcompare.
  destruct (Z.compare_spec e (-52)) as [Heq|Hlt|Hgt]; intros H.
  - right; split; [assumption|].
    apply Pos2Z.pos_lt_pos, Pos.compare_lt_iff.
    change (Pos.compare m 4503599627370496)
      with (Pos.compare_cont Eq m 4503599627370496).
    destruct (Pos.compare_cont Eq m 4503599627370496) eqn:Ec;
      [exfalso; clear -H; discriminate H | exact Ec
      | exfalso; clear -H; discriminate H].
  - left; assumption.
  - exfalso; clear -H; discriminate H.
Qed.

Lemma unit_interval_cases (r : Number) :
  unit_interval r = true ->
  (exists s, r = S754_zero s) \/
  (exists m e, r = S754_finite false m e /\ e <= -53 /\ Z.pos m < 2 ^ 53).
Proof.
  unfold unit_interval; intros H.
  apply andb_prop in H as [H Hlt]; apply andb_prop in H as [Hvalid Hle].
  destruct r as [s|s| |s m e].
  - left; exists s; reflexivity.
  - destruct s; discriminate.
  - discriminate.
  - destruct s; [discriminate|].
    right; exists m, e; split; [reflexivity|].
    apply below_one in Hlt.
    cbn [valid_binary] in Hvalid; unfold bounded, canonical_mantissa in Hvalid.
    apply andb_prop in Hvalid as [Hcanon _].
    apply Z.eqb_eq in Hcanon; rewrite fexp_bounds in Hcanon.
    pose proof (digits2_pos_bounds m) as [Hlo Hhi].
    assert (Hd : Z.pos (digits2_pos m) <= 53) by lia.
    assert (Hm : Z.pos m < 2 ^ 53).
    { eapply Z.lt_le_trans; [exact Hhi|]. apply Z.pow_le_mono_r; lia. }
    split; [|exact Hm].
    destruct Hlt as [Hlt|[Heq Hlt]]; [lia|].
    exfalso.
    assert (Hd53 : Z.pos (digits2_pos m) = 53) by lia.
    rewrite Hd53 in Hlo.
    change (2 ^ (53 - 1)) with 4503599627370496 in Hlo.
    lia.
Qed.

Lemma randomChar_range (r : Number) :
  unit_interval r = true ->
  exists c : code_unit, randomChar r = [c] /\ (33 <= c <= 126)%N.
Proof.
  intros H; destruct (unit_interval_cases r H) as [[s ->]|(m & e & -> & He & Hm)].
  - exists 33%N; split; [destruct s; vm_compute; reflexivity | lia].
  - destruct (random_floor m e He Hm) as (z & Hz & Hfloor).
    unfold randomChar, String_fromCharCode.
    rewrite Hfloor, Number_add_exact by (unfold two53; lia).
    rewrite ToUint16_of_Z by lia.
    exists (Z.to_N (z + 33)); split; [reflexivity | lia].
Qed.

End Binary64.

(** * The scrambler: properties *)

Section Scrambler.

Variable rng : RandomSource.
Hypothesis rng_unit : forall i : nat, unit_interval (rng i) = true.

Lemma scrambleChar_spec (c : code_unit) (k : nat) :
  exists d : code_unit,
    fst (scrambleChar rng c k) = [d] /\
    if isStructural c then d = c else (33 <= d <= 126)%N.
Proof.
  unfold scrambleChar; destruct (isStructural c) eqn:E.
  - exists c; split; reflexivity.
  - destruct (randomChar_range (rng k) (rng_unit k)) as (d & Hd & Hrange).
    exists d; split; [exact Hd | exact Hrange].
Qed.

Lemma scrambleText_cons (c : code_unit) (cs : jsstring) (k : nat) :
  fst (scrambleText rng (c :: cs) k)
  = fst (scrambleChar rng c k)
    ++ fst (scrambleText rng cs (snd (scrambleChar rng c k))).
Proof.
  unfold scrambleText, bind, ret; cbn [mapM]; unfold bind, ret.
  destruct (scrambleChar rng c k) as [piece k1]; cbn [fst snd].
  destruct (mapM (scrambleChar rng) cs k1) as [pieces k2]; reflexivity.
Qed.

Lemma scrambleText_scrambled (line : jsstring) :
  forall k : nat, scrambledLine line (fst (scrambleText rng line k)).
Proof.
  induction line as [|c cs IH]; intros k.
  - split; [reflexivity|]. intros [|i] c H; discriminate H.
  - rewrite scrambleText_cons.
    destruct (scrambleChar_spec c k) as (d & -> & Hd).
    destruct (IH (snd (scrambleChar rng c k))) as [Hlen Hnth].
    cbn [app].
    split; [cbn [length]; rewrite Hlen; reflexivity|].
    intros [|i] c' H; cbn [nth_error] in H |- *.
    + injection H as <-.
      destruct (isStructural c); [subst d; reflexivity|].
      exists d; split; [reflexivity | exact Hd].
    + apply Hnth; exact H.
Qed.

Lemma mapM_pointwise {A B : Type} (f : A -> Rand B) (l : list A) :
  forall k : nat,
    Forall2 (fun a b => exists k', b = fst (f a k')) l (fst (mapM f l k)).
Proof.
  induction l as [|a l IH]; intros k; cbn [mapM]; unfold bind, ret.
  - constructor.
  - destruct (f a k) as [b k1] eqn:E1.
    specialize (IH k1); destruct (mapM f l k1) as [bs k2]; cbn [fst] in *.
    constructor; [exists k; rewrite E1; reflexivity | exact IH].
Qed.

Lemma split_noLF (s : jsstring) :
  Forall (fun line => noLF line = true) (split Chars.LF s).
Proof.
  induction s as [|x s IH]; cbn [split].
  - repeat constructor.
  - destruct (N.eqb_spec x Chars.LF) as [->|Hx].
    + constructor; [reflexivity | exact IH].
    + apply N.eqb_neq in Hx.
      destruct (split Chars.LF s) as [|l ls].
      * constructor; [|constructor].
        cbn [noLF forallb]; rewrite Hx; reflexivity.
      * inversion IH as [|l' ls' Hl Hls]; subst.
        constructor; [|assumption].
        cbn [noLF forallb]; fold (noLF l); rewrite Hx; cbn [negb andb]; assumption.
Qed.

(** C5. Whatever the generator returns, the scrambled form of a line has
    the length of the line, keeps every structural character where it is
    and puts a code unit from 33 to 126 in place of every other character;
    the rendering scrambles the lines of the buffer one by one, and no line
    contains a line feed. *)
Theorem scramble_keeps_structure :
  (forall (line : jsstring) (k : nat),
      scrambledLine line (fst (scrambleText rng line k)))
  /\
  (forall (s : AppState) (k : nat),
      Forall (fun line => noLF line = true) (split Chars.LF (text s)) /\
      Forall2 (fun line out =>
                 (exists k', out = fst (scrambleText rng line k'))
                 /\ scrambledLine line out)
              (split Chars.LF (text s)) (fst (renderScrambledText rng s k))).
Proof.
  split; [exact scrambleText_scrambled|].
  intros s k; split; [apply split_noLF|].
  unfold renderScrambledText.
  pose proof (mapM_pointwise (scrambleText rng) (split Chars.LF (text s)) k) as H.
  induction H as [|line out lines outs [k' ->] _ IH]; constructor.
  - split; [exists k'; reflexivity | apply scrambleText_scrambled].
  - exact IH.
Qed.

End Scrambler.

(** The two ends of the range are reached: 33 when the generator returns
    0, 126 when it returns the largest value below 1. *)
Lemma randomChar_extremes :
  randomChar (S754_zero false) = [33%N] /\ randomChar (alwaysLargest 0) = [126%N]
  /\ unit_interval (S754_zero false) = true
  /\ unit_interval (alwaysLargest 0) = true.
Proof. repeat split; vm_compute; reflexivity. Qed.

Lemma alwaysHalf_unit : forall i : nat, unit_interval (alwaysHalf i) = true.
Proof. intros i; vm_compute; reflexivity. Defined.

Lemma scramble_keeps_structure_witness :
  (forall i : nat, unit_interval (alwaysHalf i) = true) /\
  scrambledLine Sample.goNow (fst (scrambleText alwaysHalf Sample.goNow 0)).
Proof.
  split; [exact alwaysHalf_unit|].
  apply (proj1 (scramble_keeps_structure alwaysHalf alwaysHalf_unit)).
Defined.

(** ** The list patterns: auxiliary facts *)

Lemma takeWhile_app_stops (p : code_unit -> bool) (l r : jsstring) :
  forallb p l = true -> stopsAt p r = true -> takeWhile p (l ++ r) = l.
Proof.
  intros Hl Hr; destruct r as [|c r].
  - rewrite app_nil_r; apply takeWhile_all; assumption.
  - apply takeWhile_stop; [assumption|].
    simpl in Hr; destruct (p c); [discriminate | reflexivity].
Qed.

Lemma dropWhile_app_stops (p : code_unit -> bool) (l r : jsstring) :
  forallb p l = true -> stopsAt p r = true -> dropWhile p (l ++ r) = r.
Proof.
  intros Hl Hr; rewrite dropWhile_all by assumption.
  destruct r as [|c r]; [reflexivity|].
  simpl in Hr |- *; destruct (p c); [discriminate | reflexivity].
Qed.

Lemma nonEmpty_cons (l : jsstring) :
  nonEmpty l = true -> exists c l', l = c :: l'.
Proof. destruct l as [|c l']; [discriminate | intros _; exists c, l'; reflexivity]. Qed.

Lemma trimEnd_head (c : code_unit) (r : jsstring) :
  isSpace c = false -> trimEnd (c :: r) = c :: trimEnd r.
Proof. intros H; exact (trimEnd_stop [] r c H). Qed.

Lemma period_not_space : isSpace Chars.period = false.
Proof. reflexivity. Qed.

Lemma period_not_digit : isDigit Chars.period = false.
Proof. reflexivity. Qed.

Lemma matchBullet_bulletLine (line indent : jsstring) (glyph : code_unit)
  (spacing content : jsstring) :
  bulletLine line indent glyph spacing content ->
  matchBullet line = Some (indent, [glyph], spacing).
Proof.
  intros (-> & Hindent & Hglyph & Hne & Hspacing & Hcontent).
  pose proof (isBullet_not_space glyph Hglyph) as Hns.
  unfold matchBullet; cbn [app].
  rewrite (takeWhile_stop isSpace indent (spacing ++ content) glyph Hindent Hns).
  rewrite dropWhile_all, dropWhile_stop by assumption.
  rewrite Hglyph, takeWhile_app_stops by assumption.
  destruct (nonEmpty_cons spacing Hne) as (c & l' & ->); reflexivity.
Qed.

Lemma matchNumber_numberedLine (line indent digits spacing content : jsstring) :
  numberedLine line indent digits spacing content ->
  matchBullet line = None /\
  matchNumber line = Some (indent, digits, Chars.period :: spacing).
Proof.
  intros (-> & Hindent & Hne & Hdigits & Hnes & Hspacing & Hcontent).
  destruct (nonEmpty_cons digits Hne) as (d & ds & ->).
  assert (Hd : isDigit d = true) by (simpl in Hdigits; apply andb_prop in Hdigits; tauto).
  destruct (isDigit_not_other d Hd) as (Hd1 & Hd2 & Hd3).
  split.
  - unfold matchBullet.
    change (indent ++ (d :: ds) ++ [Chars.period] ++ spacing ++ content)
      with (indent ++ d :: (ds ++ [Chars.period] ++ spacing ++ content)).
    rewrite dropWhile_all, dropWhile_stop by assumption.
    rewrite Hd2; reflexivity.
  - unfold matchNumber.
    change (indent ++ (d :: ds) ++ [Chars.period] ++ spacing ++ content)
      with (indent ++ d :: (ds ++ [Chars.period] ++ spacing ++ content)).
    rewrite (takeWhile_stop isSpace indent _ d Hindent Hd1).
    rewrite dropWhile_all, dropWhile_stop by assumption.
    change (d :: ds ++ [Chars.period] ++ spacing ++ content)
      with ((d :: ds) ++ Chars.period :: (spacing ++ content)).
    rewrite (takeWhile_stop isDigit (d :: ds) _ Chars.period Hdigits period_not_digit).
    rewrite dropWhile_all, dropWhile_stop by (assumption || reflexivity).
    rewrite N.eqb_refl.
    rewrite takeWhile_app_stops by assumption.
    destruct (nonEmpty_cons spacing Hnes) as (c & l' & ->); reflexivity.
Qed.

(** The trimmed line of an item: the marker alone when the content is
    empty, something longer otherwise. *)
Lemma trim_bulletLine (line indent : jsstring) (glyph : code_unit)
  (spacing content : jsstring) :
  bulletLine line indent glyph spacing content ->
  jsstring_eqb (trim line) ([glyph] ++ trimEnd spacing) = negb (nonEmpty content).
Proof.
  intros (-> & Hindent & Hglyph & Hne & Hspacing & Hcontent).
  pose proof (isBullet_not_space glyph Hglyph) as Hns.
  unfold trim, trimStart; cbn [app].
  rewrite dropWhile_all, dropWhile_stop by assumption.
  rewrite (trimEnd_allSpace spacing Hspacing).
  destruct content as [|c content]; cbn [nonEmpty length Nat.eqb negb].
  - rewrite app_nil_r.
    rewrite (trimEnd_head glyph spacing Hns), (trimEnd_allSpace spacing Hspacing).
    apply jsstring_eqb_refl.
  - simpl in Hcontent.
    assert (Hc : isSpace c = false)
      by (destruct (isSpace c); [discriminate | reflexivity]).
    change (glyph :: spacing ++ c :: content)
      with ((glyph :: spacing) ++ c :: content).
    rewrite trimEnd_stop by assumption.
    apply jsstring_eqb_neq; intros H.
    apply (f_equal (@length code_unit)) in H.
    destruct (nonEmpty_cons spacing Hne) as (x & l' & ->).
    cbn [length app] in H; rewrite ?length_app in H; cbn [length] in H; lia.
Qed.

Lemma trim_numberedLine (line indent digits spacing content : jsstring) :
  numberedLine line indent digits spacing content ->
  jsstring_eqb (trim line) (digits ++ trimEnd (Chars.period :: spacing))
  = negb (nonEmpty content).
Proof.
  intros (-> & Hindent & Hne & Hdigits & Hnes & Hspacing & Hcontent).
  destruct (nonEmpty_cons digits Hne) as (d & ds & ->).
  assert (Hd : isDigit d = true) by (simpl in Hdigits; apply andb_prop in Hdigits; tauto).
  destruct (isDigit_not_other d Hd) as (Hd1 & Hd2 & Hd3).
  unfold trim, trimStart.
  change (indent ++ (d :: ds) ++ [Chars.period] ++ spacing ++ content)
    with (indent ++ d :: (ds ++ [Chars.period] ++ spacing ++ content)).
  rewrite dropWhile_all, dropWhile_stop by assumption.
  rewrite (trimEnd_head Chars.period spacing period_not_space).
  rewrite (trimEnd_allSpace spacing Hspacing).
  destruct content as [|c content]; cbn [nonEmpty length Nat.eqb negb].
  - rewrite app_nil_r.
    change (d :: ds ++ [Chars.period] ++ spacing)
      with ((d :: ds) ++ Chars.period :: spacing).
    rewrite (trimEnd_stop (d :: ds) spacing Chars.period period_not_space).
    rewrite (trimEnd_allSpace spacing Hspacing).
    apply jsstring_eqb_refl.
  - simpl in Hcontent.
    assert (Hc : isSpace c = false)
      by (destruct (isSpace c); [discriminate | reflexivity]).
    change (d :: ds ++ [Chars.period] ++ spacing ++ c :: content)
      with ((d :: ds ++ [Chars.period] ++ spacing) ++ c :: content)
      || replace (d :: ds ++ [Chars.period] ++ spacing ++ c :: content)
           with ((d :: ds ++ [Chars.period] ++ spacing) ++ c :: content)
           by (cbn [app]; rewrite <- !app_assoc; reflexivity).
    rewrite trimEnd_stop by assumption.
    apply jsstring_eqb_neq; intros H.
    apply (f_equal (@length code_unit)) in H.
    cbn [length app] in H; rewrite ?length_app in H; cbn [length app] in H.
    rewrite ?length_app in H; cbn [length] in H; lia.
Qed.

(** * The list-aware line editor: properties *)

(** The branch of [handleKeyDown] that Enter without Shift takes. *)
Lemma handleKeyDown_pressEnter (s : AppState) (alt : bool) (cursorPosition : nat) :
  handleKeyDown s (pressEnter alt cursorPosition)
  = let currentLine := getCurrentLine (text s) cursorPosition in
    if matched (matchBullet currentLine) then
      match matchBullet currentLine with
      | Some (indent, bullet, space) =>
          if jsstring_eqb (trim currentLine) (bullet ++ trimEnd space)
          then handled (removeBullet s cursorPosition)
          else handled (continueBulletList s cursorPosition indent bullet space)
      | None => handled (s, None)
      end
    else if matched (matchNumber currentLine) then
      match matchNumber currentLine with
      | Some (indent, number, suffix) =>
          if jsstring_eqb (trim currentLine) (number ++ trimEnd suffix)
          then handled (removeNumberedItem s cursorPosition)
          else handled (continueNumberedList s cursorPosition indent
                          (parseInt number) suffix)
      | None => handled (s, None)
      end
    else ignored s.
Proof.
  unfold handleKeyDown, pressEnter; cbn [key altKey shiftKey selectionStart].
  replace (jsstring_eqb (toLowerCase Lit.Enter) Lit.b) with false
    by (vm_compute; reflexivity).
  replace (jsstring_eqb (toLowerCase Lit.Enter) Lit.n) with false
    by (vm_compute; reflexivity).
  rewrite !andb_false_r, jsstring_eqb_refl; reflexivity.
Qed.

Section EnterOnItem.

Variables pre mid rest post : jsstring.
Variables us rs : list jsstring.
Variable alt : bool.
Hypothesis Hcaret : caretLine pre mid rest post.

Local Abbreviation buffer := (pre ++ mid ++ rest ++ post).
Local Abbreviation before := (mkState buffer us rs).
Local Abbreviation enter := (pressEnter alt (length (pre ++ mid))).

Lemma currentLine_at_caret : getCurrentLine buffer (length (pre ++ mid)) = mid ++ rest.
Proof. destruct Hcaret as (H1 & H2 & H3); apply getCurrentLine_cut; assumption. Qed.

Lemma lineStart_at_caret : lineStartIndexOf buffer (length (pre ++ mid)) = length pre.
Proof.
  destruct Hcaret as (H1 & H2 & H3); apply (lineStartIndexOf_cut pre mid rest post);
    assumption.
Qed.

Lemma removal_outcome :
  markerRemoved pre mid rest post us (handled (removeBullet before (length (pre ++ mid))))
  /\ markerRemoved pre mid rest post us
       (handled (removeNumberedItem before (length (pre ++ mid)))).
Proof.
  unfold markerRemoved, handled, removeBullet, removeNumberedItem.
  cbn [text undoStack redoStack state caret defaultPrevented fst snd].
  rewrite lineStart_at_caret, substring_prefix_app, buffer_after_caret.
  repeat split.
Qed.

Lemma enter_empty_bullet (indent : jsstring) (glyph : code_unit) (spacing : jsstring) :
  bulletLine (mid ++ rest) indent glyph spacing [] ->
  markerRemoved pre mid rest post us (handleKeyDown before enter).
Proof.
  intros Hitem.
  rewrite handleKeyDown_pressEnter; cbv zeta; cbn [text].
  rewrite currentLine_at_caret.
  rewrite (matchBullet_bulletLine _ _ _ _ _ Hitem), (trim_bulletLine _ _ _ _ _ Hitem).
  cbn [matched nonEmpty length Nat.eqb negb].
  apply removal_outcome.
Qed.

Lemma enter_empty_numbered (indent digits spacing : jsstring) :
  numberedLine (mid ++ rest) indent digits spacing [] ->
  markerRemoved pre mid rest post us (handleKeyDown before enter).
Proof.
  intros Hitem.
  rewrite handleKeyDown_pressEnter; cbv zeta; cbn [text].
  rewrite currentLine_at_caret.
  destruct (matchNumber_numberedLine _ _ _ _ _ Hitem) as [-> ->].
  rewrite (trim_numberedLine _ _ _ _ _ Hitem).
  cbn [matched nonEmpty length Nat.eqb negb].
  apply removal_outcome.
Qed.

Lemma enter_bullet_item (indent : jsstring) (glyph : code_unit)
  (spacing content : jsstring) :
  bulletLine (mid ++ rest) indent glyph spacing content ->
  nonEmpty content = true ->
  continuedWith pre mid rest post
    ([Chars.LF] ++ indent ++ [glyph] ++ spacing) (handleKeyDown before enter).
Proof.
  intros Hitem Hcontent.
  rewrite handleKeyDown_pressEnter; cbv zeta; cbn [text].
  rewrite currentLine_at_caret.
  rewrite (matchBullet_bulletLine _ _ _ _ _ Hitem), (trim_bulletLine _ _ _ _ _ Hitem).
  rewrite Hcontent; cbn [matched negb].
  unfold continuedWith, handled, continueBulletList.
  cbn [text undoStack redoStack state caret defaultPrevented fst snd].
  rewrite buffer_before_caret, buffer_after_caret.
  repeat split.
  - rewrite <- !app_assoc; reflexivity.
  - f_equal; repeat (rewrite length_app; cbn [length]); cbn [length]; lia.
Qed.

(** Enter on a non-empty numbered item, whatever the number: the marker is
    the string of the parsed number plus one. *)
Lemma enter_numbered_item_any (indent digits spacing content : jsstring) :
  numberedLine (mid ++ rest) indent digits spacing content ->
  nonEmpty content = true ->
  continuedWith pre mid rest post
    ([Chars.LF] ++ indent
     ++ Number_toString (Number_add (parseInt digits) (Number_of_Z 1))
     ++ [Chars.period] ++ spacing)
    (handleKeyDown before enter).
Proof.
  intros Hitem Hcontent.
  rewrite handleKeyDown_pressEnter; cbv zeta; cbn [text].
  rewrite currentLine_at_caret.
  destruct (matchNumber_numberedLine _ _ _ _ _ Hitem) as [-> ->].
  rewrite (trim_numberedLine _ _ _ _ _ Hitem).
  rewrite Hcontent; cbn [matched negb].
  unfold continueNumberedList.
  set (numeral := Number_toString (Number_add (parseInt digits) (Number_of_Z 1))).
  unfold continuedWith, handled.
  cbn [text undoStack redoStack state caret defaultPrevented fst snd].
  rewrite buffer_before_caret, buffer_after_caret.
  repeat split.
  - rewrite <- !app_assoc; reflexivity.
  - f_equal; repeat (rewrite length_app; cbn [length]); cbn [length]; lia.
Qed.

Lemma enter_numbered_item (indent digits spacing content : jsstring) :
  numberedLine (mid ++ rest) indent digits spacing content ->
  nonEmpty content = true ->
  (digitsValue digits < two53)%Z ->
  continuedWith pre mid rest post
    ([Chars.LF] ++ indent ++ decimal (digitsValue digits + 1)
     ++ [Chars.period] ++ spacing)
    (handleKeyDown before enter).
Proof.
  intros Hitem Hcontent Hsafe.
  rewrite <- (nextNumber_toString digits Hsafe).
  apply enter_numbered_item_any with (content := content); assumption.
Qed.

End EnterOnItem.

(** C7. On an empty list item (the line is indentation, a marker and
    spacing), Enter deletes the text from the start of the line to the
    caret, inserts no line feed, puts the caret at the start of the line and
    pushes exactly one snapshot, the old buffer, so that one [undo()] brings
    it back; from the buffer ["- "] with the caret at its end the result is
    the empty buffer with the one snapshot ["- "]. *)
Theorem enter_on_empty_item_removes_marker :
  (forall (pre mid rest post : jsstring) (us rs : list jsstring) (alt : bool)
          (indent : jsstring) (glyph : code_unit) (spacing : jsstring),
      caretLine pre mid rest post ->
      bulletLine (mid ++ rest) indent glyph spacing [] ->
      markerRemoved pre mid rest post us
        (handleKeyDown (mkState (pre ++ mid ++ rest ++ post) us rs)
                       (pressEnter alt (length (pre ++ mid)))))
  /\
  (forall (pre mid rest post : jsstring) (us rs : list jsstring) (alt : bool)
          (indent digits spacing : jsstring),
      caretLine pre mid rest post ->
      numberedLine (mid ++ rest) indent digits spacing [] ->
      markerRemoved pre mid rest post us
        (handleKeyDown (mkState (pre ++ mid ++ rest ++ post) us rs)
                       (pressEnter alt (length (pre ++ mid)))))
  /\
  handleKeyDown (mkState Sample.emptyBullet [] []) (pressEnter false 2)
  = mkOutcome (mkState [] [Sample.emptyBullet] []) (Some 0) true.
Proof.
  split; [|split].
  - intros; eapply enter_empty_bullet; eassumption.
  - intros; eapply enter_empty_numbered; eassumption.
  - vm_compute; reflexivity.
Qed.

Lemma enter_on_empty_item_removes_marker_witness :
  (caretLine [] Sample.emptyBullet [] []
   /\ bulletLine (Sample.emptyBullet ++ []) [] Chars.hyphen [Chars.space] [])
  /\ markerRemoved [] Sample.emptyBullet [] [] []
       (handleKeyDown (mkState ([] ++ Sample.emptyBullet ++ [] ++ []) [] [Sample.a])
                      (pressEnter false (length ([] ++ Sample.emptyBullet)))).
Proof.
  assert (Hc : caretLine [] Sample.emptyBullet [] []) by (repeat split).
  assert (Hb : bulletLine (Sample.emptyBullet ++ []) [] Chars.hyphen [Chars.space] [])
    by (repeat split).
  split; [split; assumption|].
  exact (proj1 enter_on_empty_item_removes_marker
           [] Sample.emptyBullet [] [] [] [Sample.a] false
           [] Chars.hyphen [Chars.space] Hc Hb).
Defined.

(** C6, as the code has it.  On a non-empty list item, Enter inserts at the
    caret a line feed, the indentation of the line and the marker, and puts
    the caret right after what it inserted.  For a bullet line the marker is
    the same glyph and spacing.  For a numbered line, whatever its number,
    the marker is the string of the parsed number plus one in binary64
    arithmetic, the period and the same spacing; when the number is below
    2^53 that string is the decimal numeral of the number plus one.  From
    ["2. second item"] with the caret at the end the result is
    ["2. second item\n3. "]. *)
Theorem enter_continues_list :
  (forall (pre mid rest post : jsstring) (us rs : list jsstring) (alt : bool)
          (indent : jsstring) (glyph : code_unit) (spacing content : jsstring),
      caretLine pre mid rest post ->
      bulletLine (mid ++ rest) indent glyph spacing content ->
      nonEmpty content = true ->
      continuedWith pre mid rest post
        ([Chars.LF] ++ indent ++ [glyph] ++ spacing)
        (handleKeyDown (mkState (pre ++ mid ++ rest ++ post) us rs)
                       (pressEnter alt (length (pre ++ mid)))))
  /\
  (forall (pre mid rest post : jsstring) (us rs : list jsstring) (alt : bool)
          (indent digits spacing content : jsstring),
      caretLine pre mid rest post ->
      numberedLine (mid ++ rest) indent digits spacing content ->
      nonEmpty content = true ->
      continuedWith pre mid rest post
        ([Chars.LF] ++ indent
         ++ Number_toString (Number_add (parseInt digits) (Number_of_Z 1))
         ++ [Chars.period] ++ spacing)
        (handleKeyDown (mkState (pre ++ mid ++ rest ++ post) us rs)
                       (pressEnter alt (length (pre ++ mid)))))
  /\
  (forall digits : jsstring,
      (digitsValue digits < two53)%Z ->
      Number_toString (Number_add (parseInt digits) (Number_of_Z 1))
      = decimal (digitsValue digits + 1))
  /\
  text (state (handleKeyDown (mkState Sample.secondItem [] [])
                             (pressEnter false 14)))
  = Sample.thirdMarker.
Proof.
  split; [|split; [|split]].
  - intros; eapply enter_bullet_item; eassumption.
  - intros; eapply enter_numbered_item_any; eassumption.
  - intros; apply nextNumber_toString; assumption.
  - vm_compute; reflexivity.
Qed.

Lemma enter_continues_list_witness :
  (caretLine [] Sample.bulletItem [] []
   /\ bulletLine (Sample.bulletItem ++ []) [] Chars.hyphen [Chars.space] Sample.itemOne
   /\ nonEmpty Sample.itemOne = true
   /\ continuedWith [] Sample.bulletItem [] []
        ([Chars.LF] ++ [] ++ [Chars.hyphen] ++ [Chars.space])
        (handleKeyDown (mkState ([] ++ Sample.bulletItem ++ [] ++ []) [] [])
                       (pressEnter false (length ([] ++ Sample.bulletItem)))))
  /\
  (caretLine [] Sample.hugeItem [] []
   /\ numberedLine (Sample.hugeItem ++ []) [] Sample.hugeDigits [Chars.space]
        Sample.x
   /\ nonEmpty Sample.x = true
   /\ continuedWith [] Sample.hugeItem [] []
        ([Chars.LF] ++ []
         ++ Number_toString (Number_add (parseInt Sample.hugeDigits) (Number_of_Z 1))
         ++ [Chars.period] ++ [Chars.space])
        (handleKeyDown (mkState ([] ++ Sample.hugeItem ++ [] ++ []) [] [])
                       (pressEnter false (length ([] ++ Sample.hugeItem)))))
  /\
  ((digitsValue Sample.two < two53)%Z
   /\ Number_toString (Number_add (parseInt Sample.two) (Number_of_Z 1))
      = decimal (digitsValue Sample.two + 1)).
Proof.
  assert (Hc1 : caretLine [] Sample.bulletItem [] []) by (repeat split).
  assert (Hb : bulletLine (Sample.bulletItem ++ []) [] Chars.hyphen [Chars.space]
                 Sample.itemOne) by (repeat split).
  assert (Hn1 : nonEmpty Sample.itemOne = true) by reflexivity.
  assert (Hc2 : caretLine [] Sample.hugeItem [] []) by (repeat split).
  assert (Hnum : numberedLine (Sample.hugeItem ++ []) [] Sample.hugeDigits
                   [Chars.space] Sample.x) by (repeat split).
  assert (Hn2 : nonEmpty Sample.x = true) by reflexivity.
  assert (Hsafe : (digitsValue Sample.two < two53)%Z) by reflexivity.
  split; [|split].
  - repeat (split; [assumption|]).
    exact (proj1 enter_continues_list
             [] Sample.bulletItem [] [] [] [] false
             [] Chars.hyphen [Chars.space] Sample.itemOne Hc1 Hb Hn1).
  - repeat (split; [assumption|]).
    exact (proj1 (proj2 enter_continues_list)
             [] Sample.hugeItem [] [] [] [] false
             [] Sample.hugeDigits [Chars.space] Sample.x Hc2 Hnum Hn2).
  - split; [assumption|].
    exact (proj1 (proj2 (proj2 enter_continues_list)) Sample.two Hsafe).
Defined.

(** C6, as stated, fails on the numbered item ["9007199254740992. x"]: its
    number is 2^53, adding one to it in binary64 arithmetic gives 2^53
    again, and the marker inserted is ["9007199254740992. "], not
    ["9007199254740993. "]. *)
Lemma enter_continues_list_counterexample :
  caretLine [] Sample.hugeItem [] []
  /\ numberedLine (Sample.hugeItem ++ []) [] Sample.hugeDigits [Chars.space] Sample.x
  /\ digitsValue Sample.hugeDigits = two53
  /\ text (state (handleKeyDown (mkState Sample.hugeItem [] [])
                                (pressEnter false 19)))
     = Sample.hugeRepeated
  /\ text (state (handleKeyDown (mkState Sample.hugeItem [] [])
                                (pressEnter false 19)))
     <> Sample.hugeIncremented.
Proof.
  split; [repeat split|].
  split; [repeat split|].
  split; [reflexivity|].
  split; [vm_compute; reflexivity|].
  vm_compute; intros H; discriminate H.
Qed.

(** [Number_toString] on fractions, large and small magnitudes, negative
    values and the values that are no numbers. *)
Lemma Number_toString_samples :
  Forall (fun p => Number_toString (fst p) = snd p) NumberSample.samples.
Proof. repeat constructor. Qed.

(** On integers up to 2^53 the shortest digits are the decimal numeral. *)
Lemma shortestDigits_safeIntegers :
  Forall (fun v => match Number_of_Z v with
                   | S754_finite _ m e => formatDigits (shortestDigits m e) = decimal v
                   | _ => False
                   end) NumberSample.safeIntegers.
Proof. repeat constructor. Qed.

(** Past 2^53 the numbering follows binary64 arithmetic and the notation of
    [toString]: after 9007199254740994 comes 9007199254740996, after 2^60,
    written 1152921504606846976, comes 1152921504606847000, and after 10^21
    comes [1e+21]. *)
Lemma enter_past_two53_samples :
  text (state (handleKeyDown (mkState Sample.pastItem [] []) (pressEnter false 19)))
  = Sample.pastContinued
  /\ text (state (handleKeyDown (mkState Sample.two60Item [] [])
                                (pressEnter false 22)))
     = Sample.two60Continued
  /\ text (state (handleKeyDown (mkState Sample.sextillionItem [] [])
                                (pressEnter false 25)))
     = Sample.sextillionContinued.
Proof. vm_compute; repeat split. Qed.

(** * Further properties of the history engine *)

Lemma redoTimes_succ (n : nat) (s : AppState) :
  redoTimes (S n) s = redoTimes n (handleRedo s).
Proof. unfold redoTimes; apply Nat.iter_succ_r. Qed.

Lemma handleUndo_handleRedo (s : AppState) :
  redoStack s <> [] -> handleUndo (handleRedo s) = s.
Proof.
  destruct s as [t us [|r rs]]; intros H;
    [exfalso; apply H; reflexivity | reflexivity].
Qed.

(** X1. When the redo stack is not empty, [redo()] followed at once by
    [undo()] gives back the state before the pair. *)
Theorem redo_then_undo_restores (s : AppState) :
  0 < length (redoStack s) -> handleUndo (handleRedo s) = s.
Proof.
  intros H; apply handleUndo_handleRedo.
  destruct (redoStack s); [inversion H | discriminate].
Qed.

Lemma redo_then_undo_restores_witness :
  0 < length (redoStack (mkState Sample.a [[]] [Sample.ab])) /\
  handleUndo (handleRedo (mkState Sample.a [[]] [Sample.ab]))
  = mkState Sample.a [[]] [Sample.ab].
Proof.
  split; [simpl; lia|].
  apply redo_then_undo_restores; simpl; lia.
Defined.

Lemma undoTimes_then_redoTimes (n : nat) :
  forall s : AppState,
    n <= length (undoStack s) -> redoTimes n (undoTimes n s) = s.
Proof.
  induction n as [|n IH]; intros s H; [reflexivity|].
  rewrite undoTimes_succ.
  change (redoTimes (S n) ?x) with (handleRedo (redoTimes n x)).
  destruct s as [t [|u us] rs]; [simpl in H; lia|].
  rewrite handleUndo_cons, IH by (simpl in *; lia).
  reflexivity.
Qed.

Lemma redoTimes_then_undoTimes (n : nat) :
  forall s : AppState,
    n <= length (redoStack s) -> undoTimes n (redoTimes n s) = s.
Proof.
  induction n as [|n IH]; intros s H; [reflexivity|].
  rewrite redoTimes_succ.
  change (undoTimes (S n) ?x) with (handleUndo (undoTimes n x)).
  destruct s as [t us [|r rs]]; [simpl in H; lia|].
  rewrite handleRedo_cons, IH by (simpl in *; lia).
  reflexivity.
Qed.

(** X2. [n] undos followed by [n] redos give back the state, as long as the
    undo stack holds at least [n] snapshots; and so do [n] redos followed by
    [n] undos when the redo stack holds at least [n]. *)
Theorem undo_redo_round_trip (n : nat) (s : AppState) :
  (n <= length (undoStack s) -> redoTimes n (undoTimes n s) = s) /\
  (n <= length (redoStack s) -> undoTimes n (redoTimes n s) = s).
Proof.
  split; [apply undoTimes_then_redoTimes | apply redoTimes_then_undoTimes].
Qed.

Lemma undo_redo_round_trip_witness :
  redoTimes 2 (undoTimes 2 (mkState Sample.ab [Sample.a; []] [Sample.goNow]))
  = mkState Sample.ab [Sample.a; []] [Sample.goNow]
  /\ undoTimes 1 (redoTimes 1 (mkState Sample.ab [Sample.a; []] [Sample.goNow]))
     = mkState Sample.ab [Sample.a; []] [Sample.goNow].
Proof.
  split.
  - apply (undo_redo_round_trip 2
             (mkState Sample.ab [Sample.a; []] [Sample.goNow])); simpl; lia.
  - apply (undo_redo_round_trip 1
             (mkState Sample.ab [Sample.a; []] [Sample.goNow])); simpl; lia.
Defined.

Lemma timeline_handleUndo (s : AppState) : timeline (handleUndo s) = timeline s.
Proof.
  unfold timeline; destruct s as [t [|u us] rs]; [reflexivity|].
  cbn [handleUndo undoStack text redoStack rev app].
  rewrite <- !app_assoc; reflexivity.
Qed.

Lemma timeline_undoTimes (n : nat) :
  forall s : AppState, timeline (undoTimes n s) = timeline s.
Proof.
  induction n as [|n IH]; intros s; [reflexivity|].
  rewrite undoTimes_succ, IH; apply timeline_handleUndo.
Qed.

Lemma undoTimes_exhausts (n : nat) :
  forall s : AppState,
    length (undoStack s) <= n -> undoStack (undoTimes n s) = [].
Proof.
  induction n as [|n IH]; intros s H.
  - destruct (undoStack s) eqn:E; [exact E | simpl in H; lia].
  - rewrite undoTimes_succ; apply IH.
    destruct s as [t [|u us] rs]; simpl in *; lia.
Qed.

(** X3. Once [undo()] has been called at least as often as the undo stack
    is deep, the undo stack is empty and further calls change nothing: the
    buffer is the oldest snapshot, and the redo stack holds everything that
    came after it, in order. *)
Theorem undo_saturates (n : nat) (s : AppState) :
  length (undoStack s) <= n ->
  undoStack (undoTimes n s) = [] /\
  text (undoTimes n s) :: redoStack (undoTimes n s) = timeline s /\
  undoTimes (S n) s = undoTimes n s.
Proof.
  intros H.
  pose proof (undoTimes_exhausts n s H) as Hu.
  split; [exact Hu|]; split.
  - rewrite <- (timeline_undoTimes n s); unfold timeline; rewrite Hu; reflexivity.
  - change (undoTimes (S n) s) with (handleUndo (undoTimes n s)).
    unfold handleUndo; rewrite Hu; reflexivity.
Qed.

Lemma undo_saturates_witness :
  undoStack (undoTimes 5 (mkState Sample.ab [Sample.a; []] [Sample.goNow])) = []
  /\ text (undoTimes 5 (mkState Sample.ab [Sample.a; []] [Sample.goNow]))
     :: redoStack (undoTimes 5 (mkState Sample.ab [Sample.a; []] [Sample.goNow]))
     = timeline (mkState Sample.ab [Sample.a; []] [Sample.goNow])
  /\ undoTimes 6 (mkState Sample.ab [Sample.a; []] [Sample.goNow])
     = undoTimes 5 (mkState Sample.ab [Sample.a; []] [Sample.goNow]).
Proof.
  apply (undo_saturates 5 (mkState Sample.ab [Sample.a; []] [Sample.goNow])).
  simpl; lia.
Defined.

(** * Further properties of the line editor *)

(** ** The line of the caret *)

Lemma cut_before (s : jsstring) :
  exists pre mid, s = pre ++ mid /\ endsLine pre = true /\ noLF mid = true.
Proof.
  induction s as [|x s IH] using rev_ind.
  - exists [], []; repeat split.
  - destruct (N.eqb_spec x Chars.LF) as [->|Hx].
    + exists (s ++ [Chars.LF]), []; rewrite app_nil_r; repeat split.
      unfold endsLine; rewrite rev_app_distr; reflexivity.
    + destruct IH as (pre & mid & -> & Hpre & Hmid).
      exists pre, (mid ++ [x]); rewrite app_assoc; repeat split; [assumption|].
      rewrite noLF_app, Hmid; cbn [noLF forallb andb].
      apply N.eqb_neq in Hx; rewrite Hx; reflexivity.
Qed.

Lemma cut_after (s : jsstring) :
  exists rest post, s = rest ++ post /\ noLF rest = true /\ startsLine post = true.
Proof.
  induction s as [|x s IH].
  - exists [], []; repeat split.
  - destruct (N.eqb_spec x Chars.LF) as [->|Hx].
    + exists [], (Chars.LF :: s); repeat split.
    + destruct IH as (rest & post & -> & Hrest & Hpost).
      exists (x :: rest), post; repeat split; [|assumption].
      cbn [noLF forallb]; apply N.eqb_neq in Hx; rewrite Hx; exact Hrest.
Qed.

(** X4. Whatever the buffer and the caret in it, the buffer is cut around
    the caret into a part that is empty or ends with a line feed, the line
    of the caret, and a part that is empty or starts with a line feed;
    [getCurrentLine] returns that line, which contains no line feed. *)
Theorem getCurrentLine_is_the_line (txt : jsstring) (cursorPosition : nat) :
  cursorPosition <= length txt ->
  exists pre mid rest post : jsstring,
    txt = pre ++ mid ++ rest ++ post /\
    cursorPosition = length (pre ++ mid) /\
    caretLine pre mid rest post /\
    getCurrentLine txt cursorPosition = mid ++ rest /\
    noLF (getCurrentLine txt cursorPosition) = true.
Proof.
  intros Hc.
  destruct (cut_before (firstn cursorPosition txt))
    as (pre & mid & Ebefore & Hpre & Hmid).
  destruct (cut_after (skipn cursorPosition txt))
    as (rest & post & Eafter & Hrest & Hpost).
  assert (Etxt : txt = pre ++ mid ++ rest ++ post).
  { rewrite <- (firstn_skipn cursorPosition txt) at 1.
    rewrite Ebefore, Eafter, <- app_assoc; reflexivity. }
  assert (Ecur : cursorPosition = length (pre ++ mid)).
  { rewrite <- Ebefore, length_firstn; lia. }
  assert (Hline : noLF (mid ++ rest) = true).
  { rewrite noLF_app, Hmid, Hrest; reflexivity. }
  exists pre, mid, rest, post.
  split; [exact Etxt|]; split; [exact Ecur|].
  split; [repeat split; assumption|].
  rewrite Etxt at 1 2; rewrite Ecur.
  rewrite (getCurrentLine_cut pre mid rest post Hpre Hline Hpost).
  split; [reflexivity | exact Hline].
Qed.

Lemma getCurrentLine_is_the_line_witness :
  7 <= length Sample2.helloWorld /\
  exists pre mid rest post : jsstring,
    Sample2.helloWorld = pre ++ mid ++ rest ++ post /\
    7 = length (pre ++ mid) /\
    caretLine pre mid rest post /\
    getCurrentLine Sample2.helloWorld 7 = mid ++ rest /\
    noLF (getCurrentLine Sample2.helloWorld 7) = true.
Proof.
  split; [simpl; lia|].
  apply getCurrentLine_is_the_line; simpl; lia.
Defined.

(** ** Enter on a line that is no list item *)

Lemma takeWhile_stops_nil (p : code_unit -> bool) (r : jsstring) :
  stopsAt p r = true -> takeWhile p r = [].
Proof.
  destruct r as [|c r]; [reflexivity|]; simpl.
  destruct (p c); [discriminate | reflexivity].
Qed.

Lemma isBullet_not_digit (c : code_unit) : isBullet c = true -> isDigit c = false.
Proof.
  intros H; destruct (isBullet_cases c H) as [->|[->| ->]]; reflexivity.
Qed.

Lemma plainLine_no_match (line indent : jsstring) :
  plainLine line indent -> matchBullet line = None /\ matchNumber line = None.
Proof.
  intros [Hindent [H|[H|[H|H]]]].
  - destruct H as (content & -> & Hs & Hb & Hd).
    unfold matchBullet, matchNumber.
    rewrite (dropWhile_app_stops isSpace indent content Hindent Hs).
    rewrite (takeWhile_stops_nil isDigit content Hd).
    split; [|reflexivity].
    destruct content as [|c content]; [reflexivity|].
    simpl in Hb; destruct (isBullet c); [discriminate | reflexivity].
  - destruct H as (glyph & content & -> & Hg & Hs).
    pose proof (isBullet_not_space glyph Hg) as Hns.
    pose proof (isBullet_not_digit glyph Hg) as Hnd.
    unfold matchBullet, matchNumber; cbn [app].
    rewrite dropWhile_all, dropWhile_stop by assumption.
    rewrite Hg, (takeWhile_stops_nil isSpace content Hs).
    cbn [takeWhile]; rewrite Hnd; split; reflexivity.
  - destruct H as (digits & content & -> & Hne & Hdigits & Hd & Hp).
    destruct (nonEmpty_cons digits Hne) as (d & ds & ->).
    assert (Hd0 : isDigit d = true)
      by (simpl in Hdigits; apply andb_prop in Hdigits; tauto).
    destruct (isDigit_not_other d Hd0) as (Hd1 & Hd2 & Hd3).
    unfold matchBullet, matchNumber.
    change (indent ++ (d :: ds) ++ content) with (indent ++ d :: (ds ++ content)).
    rewrite dropWhile_all, dropWhile_stop by assumption.
    rewrite Hd2; split; [reflexivity|].
    change (d :: ds ++ content) with ((d :: ds) ++ content).
    rewrite (takeWhile_app_stops isDigit (d :: ds) content Hdigits Hd).
    rewrite (dropWhile_app_stops isDigit (d :: ds) content Hdigits Hd).
    destruct content as [|c content]; [reflexivity|].
    unfold isPeriod in Hp; simpl in Hp.
    destruct (c =? Chars.period)%N; [discriminate | reflexivity].
  - destruct H as (digits & content & -> & Hne & Hdigits & Hs).
    destruct (nonEmpty_cons digits Hne) as (d & ds & ->).
    assert (Hd0 : isDigit d = true)
      by (simpl in Hdigits; apply andb_prop in Hdigits; tauto).
    destruct (isDigit_not_other d Hd0) as (Hd1 & Hd2 & Hd3).
    unfold matchBullet, matchNumber.
    change (indent ++ (d :: ds) ++ [Chars.period] ++ content)
      with (indent ++ d :: (ds ++ [Chars.period] ++ content)).
    rewrite dropWhile_all, dropWhile_stop by assumption.
    rewrite Hd2; split; [reflexivity|].
    change (d :: ds ++ [Chars.period] ++ content)
      with ((d :: ds) ++ Chars.period :: content).
    rewrite (takeWhile_stop isDigit (d :: ds) content Chars.period
               Hdigits period_not_digit).
    rewrite dropWhile_all, dropWhile_stop by (assumption || reflexivity).
    rewrite N.eqb_refl, (takeWhile_stops_nil isSpace content Hs); reflexivity.
Qed.

(** X5. Enter without Shift on a line that is no list item is let through:
    the handler changes nothing, schedules no caret and does not prevent
    the default action.  This covers a blank or ordinary line, a glyph not
    followed by white space (as in ["-item"]), digits not followed by a
    period (["12 apples"]) and digits with a period not followed by white
    space (["3.14"]). *)
Theorem enter_on_plain_line_is_let_through
  (s : AppState) (alt : bool) (cursorPosition : nat) (indent : jsstring) :
  plainLine (getCurrentLine (text s) cursorPosition) indent ->
  handleKeyDown s (pressEnter alt cursorPosition) = ignored s.
Proof.
  intros H; destruct (plainLine_no_match _ _ H) as [Hb Hn].
  rewrite handleKeyDown_pressEnter; cbv zeta.
  rewrite Hb, Hn; reflexivity.
Qed.

Lemma enter_on_plain_line_is_let_through_witness :
  (plainLine (getCurrentLine Sample2.hello 5) []
   /\ handleKeyDown (mkState Sample2.hello [] []) (pressEnter false 5)
      = ignored (mkState Sample2.hello [] []))
  /\ (plainLine (getCurrentLine Sample2.dashItem 5) []
      /\ handleKeyDown (mkState Sample2.dashItem [] []) (pressEnter false 5)
         = ignored (mkState Sample2.dashItem [] []))
  /\ (plainLine (getCurrentLine Sample2.twelveApples 9) []
      /\ handleKeyDown (mkState Sample2.twelveApples [] []) (pressEnter false 9)
         = ignored (mkState Sample2.twelveApples [] []))
  /\ (plainLine (getCurrentLine Sample2.pi 4) []
      /\ handleKeyDown (mkState Sample2.pi [] []) (pressEnter false 4)
         = ignored (mkState Sample2.pi [] [])).
Proof.
  assert (H1 : plainLine (getCurrentLine Sample2.hello 5) []).
  { split; [reflexivity|]. left; exists Sample2.hello; repeat split. }
  assert (H2 : plainLine (getCurrentLine Sample2.dashItem 5) []).
  { split; [reflexivity|]. right; left.
    exists Chars.hyphen, Sample2.item; repeat split. }
  assert (H3 : plainLine (getCurrentLine Sample2.twelveApples 9) []).
  { split; [reflexivity|]. right; right; left.
    exists Sample2.twelve, Sample2.apples; repeat split. }
  assert (H4 : plainLine (getCurrentLine Sample2.pi 4) []).
  { split; [reflexivity|]. right; right; right.
    exists Sample2.three, Sample2.fourteen; repeat split. }
  split; [split; [exact H1|]|split; [split; [exact H2|]|split; split;
    [exact H3| |exact H4|]]].
  - exact (enter_on_plain_line_is_let_through
             (mkState Sample2.hello [] []) false 5 [] H1).
  - exact (enter_on_plain_line_is_let_through
             (mkState Sample2.dashItem [] []) false 5 [] H2).
  - exact (enter_on_plain_line_is_let_through
             (mkState Sample2.twelveApples [] []) false 9 [] H3).
  - exact (enter_on_plain_line_is_let_through
             (mkState Sample2.pi [] []) false 4 [] H4).
Defined.

(** ** What a key event can do to the history *)

(** The outcomes that leave the state alone or push exactly the old
    buffer. *)
Lemma pushes_old_buffer (s : AppState) (t' : jsstring) (c : option nat) :
  let o := handled (mkState t' (text s :: undoStack s) (redoStack s), c) in
  undoStack (state o) = text s :: undoStack s /\
  text (handleUndo (state o)) = text s /\
  undoStack (handleUndo (state o)) = undoStack s.
Proof. repeat split. Qed.

(** X6. Whatever the key event, when the handler does not prevent the
    default action it has changed nothing and scheduled no caret; and when
    it changes the state, it pushes exactly the old buffer on the undo
    stack, so that one [undo()] gives back the old buffer and the old undo
    stack. *)
Theorem key_handler_changes_are_undoable (s : AppState) (e : KeyboardEvent) :
  (defaultPrevented (handleKeyDown s e) = false ->
   state (handleKeyDown s e) = s /\ caret (handleKeyDown s e) = None) /\
  (state (handleKeyDown s e) = s \/
   (undoStack (state (handleKeyDown s e)) = text s :: undoStack s /\
    text (handleUndo (state (handleKeyDown s e))) = text s /\
    undoStack (handleUndo (state (handleKeyDown s e))) = undoStack s)).
Proof.
  unfold handleKeyDown.
  destruct (altKey e && jsstring_eqb (toLowerCase (key e)) Lit.b).
  { split; [discriminate|]. right; apply pushes_old_buffer. }
  destruct (altKey e && jsstring_eqb (toLowerCase (key e)) Lit.n).
  { split; [discriminate|]. right; apply pushes_old_buffer. }
  destruct (jsstring_eqb (key e) Lit.Enter && negb (shiftKey e));
    [|split; [split; reflexivity | left; reflexivity]].
  cbv zeta.
  destruct (matchBullet (getCurrentLine (text s) (selectionStart e)))
    as [[[indent bullet] space]|]; cbn [matched].
  { destruct (jsstring_eqb _ _);
      (split; [discriminate|]); right; apply pushes_old_buffer. }
  destruct (matchNumber (getCurrentLine (text s) (selectionStart e)))
    as [[[indent number] suffix]|]; cbn [matched];
    [|split; [split; reflexivity | left; reflexivity]].
  destruct (jsstring_eqb _ _);
    (split; [discriminate|]); right; apply pushes_old_buffer.
Qed.

Lemma key_handler_changes_are_undoable_witness :
  let s := mkState Sample2.hello [Sample.a] [Sample.ab] in
  let e := pressEnter false 5 in
  defaultPrevented (handleKeyDown s e) = false /\
  state (handleKeyDown s e) = s /\ caret (handleKeyDown s e) = None.
Proof.
  intros s e.
  assert (H : defaultPrevented (handleKeyDown s e) = false)
    by (vm_compute; reflexivity).
  split; [exact H|].
  exact (proj1 (key_handler_changes_are_undoable s e) H).
Defined.

(** ** Numerals written and read back *)

Lemma units_fold_acc (d : Decimal.uint) :
  forall acc : positive,
    fold_left (fun a c => (a * 10 + digitValue c)%Z) (units_of_uint d) (Z.pos acc)
    = Z.pos (Pos.of_uint_acc d acc).
Proof.
  induction d as [|d IH|d IH|d IH|d IH|d IH|d IH|d IH|d IH|d IH|d IH];
    intros acc; cbn [units_of_uint fold_left Pos.of_uint_acc];
    [reflexivity|..]; rewrite <- IH; f_equal;
    match goal with |- context [digitValue ?c] =>
      set (v := digitValue c); vm_compute in v; subst v end; lia.
Qed.

Lemma digitsValue_units (d : Decimal.uint) :
  digitsValue (units_of_uint d) = Z.of_N (Pos.of_uint d).
Proof.
  unfold digitsValue.
  induction d as [|d IH|d IH|d IH|d IH|d IH|d IH|d IH|d IH|d IH|d IH];
    cbn [units_of_uint fold_left Pos.of_uint]; [reflexivity|exact IH|..];
    match goal with |- context [digitValue ?c] =>
      set (v := digitValue c); vm_compute in v; subst v end;
    cbn [Z.mul Z.add]; apply units_fold_acc.
Qed.

Lemma allDigits_units (d : Decimal.uint) : allDigits (units_of_uint d) = true.
Proof.
  induction d; cbn [units_of_uint allDigits forallb]; try reflexivity;
    exact IHd.
Qed.

Lemma digitsValue_decimal (n : Z) : (0 <= n)%Z -> digitsValue (decimal n) = n.
Proof.
  intros H; unfold decimal; rewrite digitsValue_units.
  change (Pos.of_uint (N.to_uint (Z.to_N n))) with (N.of_uint (N.to_uint (Z.to_N n))).
  rewrite DecimalN.Unsigned.of_to; lia.
Qed.

Lemma nonEmpty_decimal (n : Z) : nonEmpty (decimal n) = true.
Proof.
  unfold decimal; destruct (Z.to_N n) as [|p]; [reflexivity|].
  cbn [N.to_uint].
  pose proof (DecimalPos.Unsigned.to_uint_nonnil p) as H.
  destruct (Pos.to_uint p); [contradiction H; reflexivity|..]; reflexivity.
Qed.

Lemma allDigits_noLF (l : jsstring) : allDigits l = true -> noLF l = true.
Proof.
  induction l as [|c l IH]; [reflexivity|]; cbn [allDigits noLF forallb].
  intros H; apply andb_prop in H as [Hc Hl].
  destruct (isDigit_not_other c Hc) as (Hs & _ & _).
  fold (noLF l); rewrite (IH Hl), andb_true_r.
  destruct (N.eqb_spec c Chars.LF) as [->|]; [discriminate Hc | reflexivity].
Qed.

(** ** Enter twice at the end of an item *)

Lemma endsLine_snoc (l : jsstring) : endsLine (l ++ [Chars.LF]) = true.
Proof. unfold endsLine; rewrite rev_app_distr; reflexivity. Qed.

(** The state after a continuation at the end of a line, seen as a buffer
    cut at its new last line. *)
Lemma continued_state (pre line post inserted : jsstring) (o : Outcome) :
  continuedWith pre line [] post ([Chars.LF] ++ inserted) o ->
  exists us rs,
    state o = mkState ((pre ++ line ++ [Chars.LF]) ++ inserted ++ [] ++ post) us rs
    /\ caret o = Some (length ((pre ++ line ++ [Chars.LF]) ++ inserted)).
Proof.
  intros (Htext & Hcaret & _).
  destruct o as [[t us rs] c p]; cbn [state text caret] in *.
  exists us, rs; subst t c; split; f_equal.
  - cbn [app]; rewrite <- !app_assoc; reflexivity.
  - f_equal; cbn [app]; rewrite <- !app_assoc; reflexivity.
Qed.

Section EnterTwice.

Variables pre line post : jsstring.
Variables us rs : list jsstring.
Variables alt alt' : bool.
Hypothesis Hcaret : caretLine pre line [] post.

Lemma caretLine_after (inserted : jsstring) :
  noLF inserted = true ->
  caretLine (pre ++ line ++ [Chars.LF]) inserted [] post.
Proof.
  intros H; destruct Hcaret as (_ & _ & Hpost).
  repeat split; [|rewrite app_nil_r; exact H|exact Hpost].
  rewrite app_assoc; apply endsLine_snoc.
Qed.

Lemma leave_list (inserted : jsstring) (o1 : Outcome) :
  continuedWith pre line [] post ([Chars.LF] ++ inserted) o1 ->
  (forall us1 rs1,
      markerRemoved (pre ++ line ++ [Chars.LF]) inserted [] post us1
        (handleKeyDown
           (mkState ((pre ++ line ++ [Chars.LF]) ++ inserted ++ [] ++ post) us1 rs1)
           (pressEnter alt' (length ((pre ++ line ++ [Chars.LF]) ++ inserted))))) ->
  exists c1 o2,
    caret o1 = Some c1 /\
    handleKeyDown (state o1) (pressEnter alt' c1) = o2 /\
    text (state o2) = pre ++ line ++ [Chars.LF] ++ post /\
    caret o2 = Some (length (pre ++ line ++ [Chars.LF])).
Proof.
  intros Hcont Hsecond.
  destruct (continued_state pre line post inserted o1 Hcont)
    as (us1 & rs1 & Hstate & Hc1).
  destruct (Hsecond us1 rs1) as (Htext & Hcaret2 & _).
  exists (length ((pre ++ line ++ [Chars.LF]) ++ inserted)).
  eexists.
  split; [exact Hc1|]; split; [rewrite Hstate; reflexivity|]; split.
  - rewrite Htext; cbn [app]; rewrite <- !app_assoc; reflexivity.
  - exact Hcaret2.
Qed.

(** X7. Enter twice at the end of a non-empty bullet item: the first Enter
    opens a new item, the second removes its marker again, and what is left
    is the item followed by an empty line, with the caret on that line. *)
Theorem enter_twice_leaves_bullet_list
  (indent : jsstring) (glyph : code_unit) (spacing content : jsstring) :
  bulletLine line indent glyph spacing content ->
  nonEmpty content = true ->
  exists o1 c1 o2,
    handleKeyDown (mkState (pre ++ line ++ post) us rs)
                  (pressEnter alt (length (pre ++ line))) = o1 /\
    caret o1 = Some c1 /\
    handleKeyDown (state o1) (pressEnter alt' c1) = o2 /\
    text (state o2) = pre ++ line ++ [Chars.LF] ++ post /\
    caret o2 = Some (length (pre ++ line ++ [Chars.LF])).
Proof.
  intros Hitem Hcontent.
  assert (Hitem' : bulletLine (line ++ []) indent glyph spacing content)
    by (rewrite app_nil_r; exact Hitem).
  pose proof (enter_bullet_item pre line [] post us rs alt Hcaret
                indent glyph spacing content Hitem' Hcontent) as Hcont.
  rewrite app_nil_l in Hcont.
  destruct Hitem as (Eline & Hindent & Hglyph & Hne & Hspacing & _).
  assert (HnoLF : noLF (indent ++ [glyph] ++ spacing) = true).
  { destruct Hcaret as (_ & Hline & _).
    rewrite app_nil_r, Eline, !noLF_app in Hline.
    rewrite !noLF_app.
    apply andb_prop in Hline as [H1 Hline].
    apply andb_prop in Hline as [H2 Hline].
    apply andb_prop in Hline as [H3 _].
    rewrite H1, H2, H3; reflexivity. }
  destruct (leave_list (indent ++ [glyph] ++ spacing) _ Hcont)
    as (c1 & o2 & H); [|eexists; exists c1, o2; split; [reflexivity | exact H]].
  intros us1 rs1.
  apply (enter_empty_bullet (pre ++ line ++ [Chars.LF]) (indent ++ [glyph] ++ spacing)
           [] post us1 rs1 alt' (caretLine_after _ HnoLF) indent glyph spacing).
  rewrite app_nil_r; repeat split; try assumption.
  rewrite app_nil_r; reflexivity.
Qed.

(** X8. Enter twice at the end of a non-empty numbered item whose number is
    below 2^53: the marker with the next number, opened by the first Enter,
    is removed by the second, and what is left is the item followed by an
    empty line. *)
Theorem enter_twice_leaves_numbered_list
  (indent digits spacing content : jsstring) :
  numberedLine line indent digits spacing content ->
  nonEmpty content = true ->
  (digitsValue digits < two53)%Z ->
  exists o1 c1 o2,
    handleKeyDown (mkState (pre ++ line ++ post) us rs)
                  (pressEnter alt (length (pre ++ line))) = o1 /\
    caret o1 = Some c1 /\
    handleKeyDown (state o1) (pressEnter alt' c1) = o2 /\
    text (state o2) = pre ++ line ++ [Chars.LF] ++ post /\
    caret o2 = Some (length (pre ++ line ++ [Chars.LF])).
Proof.
  intros Hitem Hcontent Hsafe.
  assert (Hitem' : numberedLine (line ++ []) indent digits spacing content)
    by (rewrite app_nil_r; exact Hitem).
  pose proof (enter_numbered_item pre line [] post us rs alt Hcaret
                indent digits spacing content Hitem' Hcontent Hsafe) as Hcont.
  rewrite app_nil_l in Hcont.
  destruct Hitem as (Eline & Hindent & Hne & Hdigits & Hnes & Hspacing & _).
  set (next := decimal (digitsValue digits + 1)) in *.
  assert (Hnext : allDigits next = true) by apply allDigits_units.
  assert (HnoLF : noLF (indent ++ next ++ [Chars.period] ++ spacing) = true).
  { destruct Hcaret as (_ & Hline & _).
    rewrite app_nil_r, Eline, !noLF_app in Hline.
    rewrite !noLF_app, (allDigits_noLF next Hnext).
    apply andb_prop in Hline as [H1 Hline].
    apply andb_prop in Hline as [_ Hline].
    apply andb_prop in Hline as [H3 Hline].
    apply andb_prop in Hline as [H4 _].
    rewrite H1, H3, H4; reflexivity. }
  destruct (leave_list (indent ++ next ++ [Chars.period] ++ spacing) _ Hcont)
    as (c1 & o2 & H); [|eexists; exists c1, o2; split; [reflexivity | exact H]].
  intros us1 rs1.
  apply (enter_empty_numbered (pre ++ line ++ [Chars.LF])
           (indent ++ next ++ [Chars.period] ++ spacing)
           [] post us1 rs1 alt' (caretLine_after _ HnoLF) indent next spacing).
  rewrite app_nil_r; repeat split; try assumption.
  - rewrite app_nil_r; reflexivity.
  - apply nonEmpty_decimal.
Qed.

End EnterTwice.

Lemma enter_twice_leaves_bullet_list_witness :
  caretLine [] Sample.bulletItem [] [] /\
  bulletLine Sample.bulletItem [] Chars.hyphen [Chars.space] Sample.itemOne /\
  nonEmpty Sample.itemOne = true /\
  exists o1 c1 o2,
    handleKeyDown (mkState ([] ++ Sample.bulletItem ++ []) [] [])
                  (pressEnter false (length ([] ++ Sample.bulletItem))) = o1 /\
    caret o1 = Some c1 /\
    handleKeyDown (state o1) (pressEnter false c1) = o2 /\
    text (state o2) = [] ++ Sample.bulletItem ++ [Chars.LF] ++ [] /\
    caret o2 = Some (length ([] ++ Sample.bulletItem ++ [Chars.LF])).
Proof.
  assert (Hc : caretLine [] Sample.bulletItem [] []) by (repeat split).
  assert (Hb : bulletLine Sample.bulletItem [] Chars.hyphen [Chars.space]
                 Sample.itemOne) by (repeat split).
  assert (Hn : nonEmpty Sample.itemOne = true) by reflexivity.
  repeat (split; [assumption|]).
  exact (enter_twice_leaves_bullet_list [] Sample.bulletItem [] [] [] false false
           Hc [] Chars.hyphen [Chars.space] Sample.itemOne Hb Hn).
Defined.

Lemma enter_twice_leaves_numbered_list_witness :
  caretLine [] Sample.secondItem [] [] /\
  numberedLine Sample.secondItem [] Sample.two [Chars.space] Sample.secondContent /\
  nonEmpty Sample.secondContent = true /\
  (digitsValue Sample.two < two53)%Z /\
  exists o1 c1 o2,
    handleKeyDown (mkState ([] ++ Sample.secondItem ++ []) [] [])
                  (pressEnter false (length ([] ++ Sample.secondItem))) = o1 /\
    caret o1 = Some c1 /\
    handleKeyDown (state o1) (pressEnter false c1) = o2 /\
    text (state o2) = [] ++ Sample.secondItem ++ [Chars.LF] ++ [] /\
    caret o2 = Some (length ([] ++ Sample.secondItem ++ [Chars.LF])).
Proof.
  assert (Hc : caretLine [] Sample.secondItem [] []) by (repeat split).
  assert (Hb : numberedLine Sample.secondItem [] Sample.two [Chars.space]
                 Sample.secondContent) by (repeat split).
  assert (Hn : nonEmpty Sample.secondContent = true) by reflexivity.
  assert (Hs : (digitsValue Sample.two < two53)%Z) by reflexivity.
  repeat (split; [assumption|]).
  exact (enter_twice_leaves_numbered_list [] Sample.secondItem [] [] [] false false
           Hc [] Sample.two [Chars.space] Sample.secondContent Hb Hn Hs).
Defined.

(** ** Numbering *)

(** X9. A numbered list counts up.  [insertNumberedItem] puts at the caret
    the numeral of 1 with a period and a space, and the caret after these
    three characters; and on a non-empty item whose digits are the numeral
    of [n], for [n] from 0 to below 2^53, Enter inserts the numeral of
    [n + 1] with the same period and spacing, which the next Enter reads
    back as [n + 1]. *)
Theorem numbering_counts_up :
  (forall (pre post : jsstring) (us rs : list jsstring),
      let r := insertNumberedItem (Some (length pre)) (mkState (pre ++ post) us rs) in
      text (fst r) = pre ++ decimal 1 ++ [Chars.period; Chars.space] ++ post
      /\ snd r = Some (length (pre ++ decimal 1 ++ [Chars.period; Chars.space])))
  /\
  forall (pre mid rest post : jsstring) (us rs : list jsstring) (alt : bool)
         (indent spacing content : jsstring) (n : Z),
    caretLine pre mid rest post ->
    numberedLine (mid ++ rest) indent (decimal n) spacing content ->
    nonEmpty content = true ->
    (0 <= n < two53)%Z ->
    digitsValue (decimal (n + 1)) = (n + 1)%Z /\
    continuedWith pre mid rest post
      ([Chars.LF] ++ indent ++ decimal (n + 1) ++ [Chars.period] ++ spacing)
      (handleKeyDown (mkState (pre ++ mid ++ rest ++ post) us rs)
                     (pressEnter alt (length (pre ++ mid)))).
Proof.
  split.
  { intros pre post us rs; cbv zeta; unfold insertNumberedItem; cbn [text fst snd].
    rewrite substring_prefix_app, substringFrom_app.
    split; [reflexivity|].
    f_equal; rewrite length_app; cbn [length]; reflexivity. }
  intros pre mid rest post us rs alt indent spacing content n Hc Hitem Hne Hn.
  split; [apply digitsValue_decimal; lia|].
  replace (n + 1)%Z with (digitsValue (decimal n) + 1)%Z
    by (rewrite digitsValue_decimal; lia).
  apply (enter_numbered_item pre mid rest post us rs alt Hc
           indent (decimal n) spacing content Hitem Hne).
  rewrite digitsValue_decimal; lia.
Qed.

Lemma numbering_counts_up_witness :
  caretLine [] Sample2.sevenItem [] [] /\
  numberedLine (Sample2.sevenItem ++ []) [] (decimal 7) [Chars.space]
    Sample2.sevenContent /\
  nonEmpty Sample2.sevenContent = true /\
  (0 <= 7 < two53)%Z /\
  digitsValue (decimal (7 + 1)) = (7 + 1)%Z /\
  continuedWith [] Sample2.sevenItem [] []
    ([Chars.LF] ++ [] ++ decimal (7 + 1) ++ [Chars.period] ++ [Chars.space])
    (handleKeyDown (mkState ([] ++ Sample2.sevenItem ++ [] ++ []) [] [])
                   (pressEnter false (length ([] ++ Sample2.sevenItem)))).
Proof.
  assert (Hc : caretLine [] Sample2.sevenItem [] []) by (repeat split).
  assert (Hb : numberedLine (Sample2.sevenItem ++ []) [] (decimal 7) [Chars.space]
                 Sample2.sevenContent) by (repeat split).
  assert (Hn : nonEmpty Sample2.sevenContent = true) by reflexivity.
  assert (Hs : (0 <= 7 < two53)%Z) by (unfold two53; lia).
  repeat (split; [assumption|]).
  exact (proj2 numbering_counts_up [] Sample2.sevenItem [] [] [] [] false
           [] [Chars.space] Sample2.sevenContent 7%Z Hc Hb Hn Hs).
Defined.

(** ** Markers inserted with Alt+B and Alt+N *)

Section InsertThenEnter.

Variables pre post : jsstring.
Variables us rs : list jsstring.
Variable k : jsstring.
Variables shift alt : bool.
Hypothesis Hpre : endsLine pre = true.
Hypothesis Hpost : startsLine post = true.

Lemma emptyLine_caret (token : jsstring) :
  noLF token = true -> caretLine pre token [] post.
Proof. intros H; repeat split; try assumption. rewrite app_nil_r; exact H. Qed.

(** X10. Alt with b or B, with or without Shift, on an empty line puts the
    token of the bullet and a space at the caret and the caret after it;
    Enter pressed right then takes the token away again and gives back the
    buffer, with the caret where it was. *)
Theorem bullet_inserted_then_enter_round_trip :
  toLowerCase k = Lit.b ->
  exists o1 o2,
    handleKeyDown (mkState (pre ++ post) us rs) (pressAlt k shift (length pre))
    = o1 /\
    text (state o1) = pre ++ bulletToken ++ post /\
    caret o1 = Some (length (pre ++ bulletToken)) /\
    handleKeyDown (state o1) (pressEnter alt (length (pre ++ bulletToken)))
    = o2 /\
    text (state o2) = pre ++ post /\
    caret o2 = Some (length pre).
Proof.
  intros Hk.
  assert (Hc : caretLine pre bulletToken [] post) by (apply emptyLine_caret; reflexivity).
  assert (Hb : bulletLine (bulletToken ++ []) [] Chars.bullet [Chars.space] [])
    by (repeat split).
  destruct (enter_empty_bullet pre bulletToken [] post ((pre ++ post) :: us) rs alt
              Hc [] Chars.bullet [Chars.space] Hb)
    as (Htext & Hcaret & _).
  eexists; eexists.
  split.
  { unfold handleKeyDown, pressAlt; cbn [key altKey shiftKey selectionStart].
    rewrite Hk, jsstring_eqb_refl; cbn [andb]; reflexivity. }
  unfold handled, insertBulletPoint; cbn [state text caret fst snd undoStack redoStack].
  rewrite substring_prefix_app, substringFrom_app.
  split; [reflexivity|]; split.
  { f_equal; rewrite length_app; reflexivity. }
  split; [reflexivity|]; split; [exact Htext | exact Hcaret].
Qed.

(** X11. The same for Alt with n or N and the marker ["1. "]. *)
Theorem number_inserted_then_enter_round_trip :
  toLowerCase k = Lit.n ->
  exists o1 o2,
    handleKeyDown (mkState (pre ++ post) us rs) (pressAlt k shift (length pre))
    = o1 /\
    text (state o1) = pre ++ Lit.firstItem ++ post /\
    caret o1 = Some (length (pre ++ Lit.firstItem)) /\
    handleKeyDown (state o1) (pressEnter alt (length (pre ++ Lit.firstItem)))
    = o2 /\
    text (state o2) = pre ++ post /\
    caret o2 = Some (length pre).
Proof.
  intros Hk.
  assert (Hc : caretLine pre Lit.firstItem [] post)
    by (apply emptyLine_caret; reflexivity).
  assert (Hb : numberedLine (Lit.firstItem ++ []) [] [Chars.one] [Chars.space] [])
    by (repeat split).
  destruct (enter_empty_numbered pre Lit.firstItem [] post ((pre ++ post) :: us) rs alt
              Hc [] [Chars.one] [Chars.space] Hb)
    as (Htext & Hcaret & _).
  eexists; eexists.
  split.
  { unfold handleKeyDown, pressAlt; cbn [key altKey shiftKey selectionStart].
    rewrite Hk, jsstring_eqb_refl.
    replace (jsstring_eqb Lit.n Lit.b) with false by (vm_compute; reflexivity).
    cbn [andb]; reflexivity. }
  unfold handled, insertNumberedItem; cbn [state text caret fst snd undoStack redoStack].
  rewrite substring_prefix_app, substringFrom_app.
  split; [reflexivity|]; split.
  { f_equal; rewrite length_app; reflexivity. }
  split; [reflexivity|]; split; [exact Htext | exact Hcaret].
Qed.

End InsertThenEnter.

Lemma bullet_inserted_then_enter_round_trip_witness :
  endsLine (Sample2.hello ++ [Chars.LF]) = true /\
  startsLine (Chars.LF :: Sample2.world) = true /\
  toLowerCase Sample2.upperB = Lit.b /\
  exists o1 o2,
    handleKeyDown
      (mkState ((Sample2.hello ++ [Chars.LF]) ++ Chars.LF :: Sample2.world) [] [])
      (pressAlt Sample2.upperB true (length (Sample2.hello ++ [Chars.LF])))
    = o1 /\
    text (state o1)
    = (Sample2.hello ++ [Chars.LF]) ++ bulletToken ++ Chars.LF :: Sample2.world /\
    caret o1 = Some (length ((Sample2.hello ++ [Chars.LF]) ++ bulletToken)) /\
    handleKeyDown (state o1)
      (pressEnter false (length ((Sample2.hello ++ [Chars.LF]) ++ bulletToken)))
    = o2 /\
    text (state o2) = (Sample2.hello ++ [Chars.LF]) ++ Chars.LF :: Sample2.world /\
    caret o2 = Some (length (Sample2.hello ++ [Chars.LF])).
Proof.
  assert (H1 : endsLine (Sample2.hello ++ [Chars.LF]) = true) by reflexivity.
  assert (H2 : startsLine (Chars.LF :: Sample2.world) = true) by reflexivity.
  assert (H3 : toLowerCase Sample2.upperB = Lit.b) by reflexivity.
  repeat (split; [assumption|]).
  exact (bullet_inserted_then_enter_round_trip
           (Sample2.hello ++ [Chars.LF]) (Chars.LF :: Sample2.world) [] []
           Sample2.upperB true false H1 H2 H3).
Defined.

Lemma number_inserted_then_enter_round_trip_witness :
  endsLine [] = true /\
  startsLine [] = true /\
  toLowerCase Sample2.upperN = Lit.n /\
  exists o1 o2,
    handleKeyDown (mkState ([] ++ []) [Sample.a] [])
                  (pressAlt Sample2.upperN false (length (@nil code_unit)))
    = o1 /\
    text (state o1) = [] ++ Lit.firstItem ++ [] /\
    caret o1 = Some (length ([] ++ Lit.firstItem)) /\
    handleKeyDown (state o1) (pressEnter false (length ([] ++ Lit.firstItem)))
    = o2 /\
    text (state o2) = [] ++ [] /\
    caret o2 = Some (length (@nil code_unit)).
Proof.
  assert (H1 : endsLine [] = true) by reflexivity.
  assert (H2 : startsLine [] = true) by reflexivity.
  assert (H3 : toLowerCase Sample2.upperN = Lit.n) by reflexivity.
  repeat (split; [assumption|]).
  exact (number_inserted_then_enter_round_trip
           [] [] [Sample.a] [] Sample2.upperN false false H1 H2 H3).
Defined.

(** * Further properties of the scrambler *)

Lemma mapM_cons_eq {A B : Type} (f : A -> Rand B) (a : A) (l : list A) (k : nat) :
  mapM f (a :: l) k
  = (fst (f a k) :: fst (mapM f l (snd (f a k))), snd (mapM f l (snd (f a k)))).
Proof.
  cbn [mapM]; unfold bind, ret.
  destruct (f a k) as [b k1]; cbn [fst snd].
  destruct (mapM f l k1) as [bs k2]; reflexivity.
Qed.

Lemma mapM_length {A B : Type} (f : A -> Rand B) (l : list A) :
  forall k : nat, length (fst (mapM f l k)) = length l.
Proof.
  induction l as [|a l IH]; intros k; [reflexivity|].
  rewrite mapM_cons_eq; cbn [fst length]; rewrite IH; reflexivity.
Qed.

Lemma scrambleText_eq (rng : RandomSource) (input : jsstring) (k : nat) :
  scrambleText rng input k
  = (concat (fst (mapM (scrambleChar rng) input k)),
     snd (mapM (scrambleChar rng) input k)).
Proof.
  unfold scrambleText, bind, ret.
  destruct (mapM (scrambleChar rng) input k); reflexivity.
Qed.

Lemma scrambleText_step (rng : RandomSource) (c : code_unit) (cs : jsstring)
  (k : nat) :
  scrambleText rng (c :: cs) k
  = (fst (scrambleChar rng c k)
       ++ fst (scrambleText rng cs (snd (scrambleChar rng c k))),
     snd (scrambleText rng cs (snd (scrambleChar rng c k)))).
Proof. rewrite !scrambleText_eq, mapM_cons_eq; reflexivity. Qed.

Lemma scrambleChar_one (rng : RandomSource) (c : code_unit) (k : nat) :
  length (fst (scrambleChar rng c k)) = 1 /\
  snd (scrambleChar rng c k) = if isContent c then S k else k.
Proof.
  unfold scrambleChar, isContent; destruct (isStructural c); split; reflexivity.
Qed.

Lemma scrambleText_length (rng : RandomSource) (line : jsstring) :
  forall k : nat, length (fst (scrambleText rng line k)) = length line.
Proof.
  induction line as [|c cs IH]; intros k; [reflexivity|].
  rewrite scrambleText_step; cbn [fst]; rewrite length_app, IH.
  rewrite (proj1 (scrambleChar_one rng c k)); reflexivity.
Qed.

Lemma split_length (s : jsstring) :
  length (split Chars.LF s) = S (count_occ N.eq_dec s Chars.LF).
Proof.
  induction s as [|x s IH]; [reflexivity|]; cbn [split count_occ].
  destruct (N.eqb_spec x Chars.LF) as [->|Hx].
  - destruct (N.eq_dec Chars.LF Chars.LF) as [_|H]; [|contradiction H; reflexivity].
    cbn [length]; rewrite IH; reflexivity.
  - destruct (N.eq_dec x Chars.LF) as [H|_]; [contradiction|].
    destruct (split Chars.LF s); [discriminate IH | exact IH].
Qed.

Lemma joinLines_cons (l : jsstring) (l' : jsstring) (ls : list jsstring) :
  joinLines (l :: l' :: ls) = l ++ Chars.LF :: joinLines (l' :: ls).
Proof. reflexivity. Qed.

Lemma joinLines_split (s : jsstring) : joinLines (split Chars.LF s) = s.
Proof.
  induction s as [|x s IH]; [reflexivity|]; cbn [split].
  destruct (N.eqb_spec x Chars.LF) as [->|Hx].
  - destruct (split Chars.LF s) as [|l ls] eqn:E.
    + pose proof (split_length s) as H; rewrite E in H; discriminate H.
    + rewrite joinLines_cons, IH; reflexivity.
  - destruct (split Chars.LF s) as [|l [|l' ls]] eqn:E.
    + pose proof (split_length s) as H; rewrite E in H; discriminate H.
    + cbn [joinLines] in *; rewrite IH; reflexivity.
    + rewrite joinLines_cons in *; cbn [app]; rewrite IH; reflexivity.
Qed.

(** X12. The overlay has the shape of the buffer, whatever the generator
    returns: [renderScrambledText] gives one line per line of the buffer
    (one more than the buffer has line feeds), each of the length of its
    line, and the lines of the buffer, joined by line feeds, are the
    buffer. *)
Theorem overlay_has_the_shape_of_the_buffer
  (rng : RandomSource) (s : AppState) (k : nat) :
  length (fst (renderScrambledText rng s k))
  = S (count_occ N.eq_dec (text s) Chars.LF)
  /\ Forall2 (fun line out => length out = length line)
       (split Chars.LF (text s)) (fst (renderScrambledText rng s k))
  /\ joinLines (split Chars.LF (text s)) = text s.
Proof.
  unfold renderScrambledText; split; [|split].
  - rewrite mapM_length; apply split_length.
  - pose proof (mapM_pointwise (scrambleText rng) (split Chars.LF (text s)) k) as H.
    induction H as [|line out lines outs [k' ->] _ IH]; constructor;
      [apply scrambleText_length | exact IH].
  - apply joinLines_split.
Qed.

(** X13. A text made of structural characters only (white space, digits
    and the listed punctuation) is not hidden at all: [scrambleText]
    returns it as it is and does not call the generator. *)
Theorem structural_text_is_shown (rng : RandomSource) (line : jsstring) (k : nat) :
  forallb isStructural line = true -> scrambleText rng line k = (line, k).
Proof.
  revert k; induction line as [|c cs IH]; intros k H; [reflexivity|].
  cbn [forallb] in H; apply andb_prop in H as [Hc Hcs].
  rewrite scrambleText_step.
  unfold scrambleChar; rewrite Hc; cbn [ret fst snd].
  rewrite (IH k Hcs); reflexivity.
Qed.

Lemma structural_text_is_shown_witness :
  forallb isStructural Sample2.structure = true /\
  scrambleText alwaysHalf Sample2.structure 0 = (Sample2.structure, 0).
Proof.
  split; [reflexivity|].
  apply structural_text_is_shown; reflexivity.
Defined.

Lemma scrambleText_draws (rng : RandomSource) (line : jsstring) :
  forall k : nat,
    snd (scrambleText rng line k) = k + length (filter isContent line).
Proof.
  induction line as [|c cs IH]; intros k; [cbn; lia|].
  rewrite scrambleText_step; cbn [snd filter]; rewrite IH.
  rewrite (proj2 (scrambleChar_one rng c k)).
  destruct (isContent c); cbn [length]; lia.
Qed.

Lemma mapM_scrambleText_draws (rng : RandomSource) (lines : list jsstring) :
  forall k : nat,
    snd (mapM (scrambleText rng) lines k)
    = k + length (filter isContent (concat lines)).
Proof.
  induction lines as [|l ls IH]; intros k; [cbn; lia|].
  rewrite mapM_cons_eq; cbn [snd concat]; rewrite IH, scrambleText_draws.
  rewrite filter_app, length_app; lia.
Qed.

Lemma filter_joinLines (ls : list jsstring) :
  filter isContent (joinLines ls) = filter isContent (concat ls).
Proof.
  induction ls as [|l [|l' ls] IH]; [reflexivity| |].
  - cbn [joinLines concat]; rewrite app_nil_r; reflexivity.
  - rewrite joinLines_cons; cbn [concat] in *.
    rewrite (filter_app isContent l (Chars.LF :: joinLines (l' :: ls))).
    rewrite (filter_app isContent l (l' ++ concat ls)).
    cbn [filter].
    replace (isContent Chars.LF) with false by reflexivity.
    rewrite IH; reflexivity.
Qed.

(** X14. The scrambler calls [Math.random()] exactly once for every content
    character: scrambling a line moves the count of calls up by the number
    of its content characters, and rendering the buffer by the number of
    content characters of the buffer. *)
Theorem one_draw_per_content_character
  (rng : RandomSource) (s : AppState) (line : jsstring) (k : nat) :
  snd (scrambleText rng line k) = k + length (filter isContent line)
  /\ snd (renderScrambledText rng s k)
     = k + length (filter isContent (text s)).
Proof.
  split; [apply scrambleText_draws|].
  unfold renderScrambledText.
  rewrite mapM_scrambleText_draws, <- filter_joinLines, joinLines_split.
  reflexivity.
Qed.

(** ** The first version of the scrambler *)

Section FirstScrambler.

Variable rng : RandomSource.
Hypothesis rng_unit : forall i : nat, unit_interval (rng i) = true.

Lemma scrambleTextV1_step (c : code_unit) (cs : jsstring) (k : nat) :
  scrambleTextV1 rng (c :: cs) k
  = (randomChar (rng k) ++ fst (scrambleTextV1 rng cs (S k)),
     snd (scrambleTextV1 rng cs (S k))).
Proof.
  unfold scrambleTextV1, bind, ret; rewrite mapM_cons_eq.
  unfold bind, ret, Math_random; cbn [fst snd].
  destruct (mapM _ cs (S k)); reflexivity.
Qed.

(** X15. The first version of the scrambler hides everything: whatever the
    generator returns, the result has the length of the input, every one of
    its code units is between 33 and 126, white space and digits of the
    input included, and the generator is called once per code unit. *)
Theorem first_scrambler_replaces_everything (input : jsstring) (k : nat) :
  length (fst (scrambleTextV1 rng input k)) = length input /\
  Forall (fun d => (33 <= d <= 126)%N) (fst (scrambleTextV1 rng input k)) /\
  snd (scrambleTextV1 rng input k) = k + length input.
Proof.
  revert k; induction input as [|c cs IH]; intros k.
  - repeat split; [constructor | cbn; lia].
  - rewrite scrambleTextV1_step; cbn [fst snd].
    destruct (IH (S k)) as (Hlen & Hall & Hdraws).
    destruct (randomChar_range (rng k) (rng_unit k)) as (d & -> & Hd).
    cbn [app length]; rewrite Hlen, Hdraws.
    repeat split; [constructor; assumption | lia].
Qed.

End FirstScrambler.

Lemma first_scrambler_replaces_everything_witness :
  (forall i : nat, unit_interval (alwaysLargest i) = true) /\
  length (fst (scrambleTextV1 alwaysLargest Sample.goNow 0)) = length Sample.goNow /\
  Forall (fun d => (33 <= d <= 126)%N)
    (fst (scrambleTextV1 alwaysLargest Sample.goNow 0)) /\
  snd (scrambleTextV1 alwaysLargest Sample.goNow 0) = 0 + length Sample.goNow.
Proof.
  assert (H : forall i : nat, unit_interval (alwaysLargest i) = true)
    by (intros i; vm_compute; reflexivity).
  split; [exact H|].
  exact (first_scrambler_replaces_everything alwaysLargest H Sample.goNow 0).
Defined.
